(** * Conway's Game of Life (Game.hpp / Game.cpp): a shallow embedding

    The C++ class [Game] owns a [width] x [height] array of [int] cells
    ([grid[col][row]]), a vector of pattern cells and a few scalar fields.
    Its methods are embedded as functions on a record of these fields.

    Conventions of the embedding
    - [int] values are integers of [Z]; an arithmetic result that leaves the
      32-bit range is undefined behaviour and is reported as the fault
      [IntOverflow].  Index arithmetic that feeds straight into an array
      access ([x - 1], [y + 1], loop counters and the loop bounds
      [width - 1], [height - buffer]) is done in [Z]: an index that would
      overflow is out of range of every array anyway.
    - an array is a list; reading or writing outside of it is undefined
      behaviour and is reported as the fault [OutOfBounds].
    - [new T[n]] with a negative [n] throws [std::bad_array_new_length],
      reported as [BadArrayNewLength]; memory exhaustion is not modelled.
    - freshly allocated [int] storage holds an arbitrary value
      ([indeterminate], a section variable); a freshly allocated array of
      row pointers is a list of empty columns, so that going through such a
      pointer is a fault.
    - [std::cout] is the list of characters written so far.
    - the terminal of [Game::play] is the list of events it has received
      (characters written, flushes, clears, sleeps); the destructor is not
      embedded. *)

From Stdlib Require Import ZArith Ascii Lia.
From Stdlib Require String.
Import String.StringSyntax.
From stdpp Require Import base decidable list numbers.

Local Open Scope Z_scope.

(** ** Faults and the outcome monad *)

Inductive fault : Type :=
  | OutOfBounds
  | IntOverflow
  | BadArrayNewLength.

Inductive outcome (A : Type) : Type :=
  | Ok (a : A)
  | Fail (f : fault).

Arguments Ok {A} a.
Arguments Fail {A} f.

Definition bind {A B : Type} (m : outcome A) (k : A -> outcome B) : outcome B :=
  match m with
  | Ok a => k a
  | Fail f => Fail f
  end.

Notation "'let!' x ':=' m 'in' k" := (bind m (fun x => k))
  (at level 10, x name, m at level 100, k at level 200).

(** ** Machine integers *)

Definition INT_MIN : Z := -2147483648.
Definition INT_MAX : Z := 2147483647.

Definition int_range (z : Z) : Prop := INT_MIN <= z <= INT_MAX.

Definition int_of (z : Z) : outcome Z :=
  if decide (INT_MIN <= z <= INT_MAX) then Ok z else Fail IntOverflow.

Definition int_add (a b : Z) : outcome Z := int_of (a + b).

(** ** Arrays and loops *)

(** [a[i]] as an rvalue. *)
Definition index {A : Type} (a : list A) (i : Z) : outcome A :=
  if decide (0 <= i) then
    match a !! Z.to_nat i with
    | Some v => Ok v
    | None => Fail OutOfBounds
    end
  else Fail OutOfBounds.

(** [a[i] = v]. *)
Definition assign {A : Type} (a : list A) (i : Z) (v : A) : outcome (list A) :=
  let! _ := index a i in Ok (<[Z.to_nat i := v]> a).

(** [g[x][y]] as an rvalue. *)
Definition load (g : list (list Z)) (x y : Z) : outcome Z :=
  let! col := index g x in index col y.

(** [g[x][y] = v]. *)
Definition store (g : list (list Z)) (x y v : Z) : outcome (list (list Z)) :=
  let! col := index g x in
  let! col' := assign col y v in
  Ok (<[Z.to_nat x := col']> g).

(** [new T[n]], every element being [init]. *)
Definition new_array {A : Type} (n : Z) (init : A) : outcome (list A) :=
  if decide (0 <= n) then Ok (replicate (Z.to_nat n) init)
  else Fail BadArrayNewLength.

(** [n] iterations of a loop body, the counter starting at [i]. *)
Fixpoint for_count {T : Type} (n : nat) (i : Z)
    (body : Z -> T -> outcome T) (s : T) : outcome T :=
  match n with
  | O => Ok s
  | S n' => let! s' := body i s in for_count n' (i + 1) body s'
  end.

(** [for (int i = lo; i < hi; ++i) body]. *)
Definition for_range {T : Type} (lo hi : Z)
    (body : Z -> T -> outcome T) (s : T) : outcome T :=
  for_count (Z.to_nat (hi - lo)) lo body s.

(** ** The data model *)

(** cell states *)
Definition ALIVE : Z := 1.
Definition DEAD : Z := 0.

Record Cell : Type := mkCell { Cell_x : Z; Cell_y : Z }.

Record Game : Type := mkGame {
  width : Z;
  height : Z;
  buffer : Z;
  generations : Z;
  pauseLength : Z;
  grid : list (list Z);
  patternCells : list Cell
}.

Definition with_grid (g : Game) (gr : list (list Z)) : Game :=
  mkGame (width g) (height g) (buffer g) (generations g) (pauseLength g)
         gr (patternCells g).

Definition with_patternCells (g : Game) (cells : list Cell) : Game :=
  mkGame (width g) (height g) (buffer g) (generations g) (pauseLength g)
         (grid g) cells.

(** ** The pattern catalog of [setPatternVector] *)

Definition oscillator : list Cell :=
  [ mkCell 1 0; mkCell 1 1; mkCell 1 2 ].

Definition glider : list Cell :=
  [ mkCell 0 2; mkCell 1 0; mkCell 1 2; mkCell 2 1;
    mkCell 2 2 ].

Definition glider_gun : list Cell :=
  [ mkCell 0 4; mkCell 0 5; mkCell 1 4; mkCell 1 5;
    mkCell 10 4; mkCell 10 5; mkCell 10 6; mkCell 11 3;
    mkCell 11 7; mkCell 12 2; mkCell 12 8; mkCell 13 2;
    mkCell 13 8; mkCell 14 5; mkCell 15 3; mkCell 15 7;
    mkCell 16 4; mkCell 16 5; mkCell 16 6; mkCell 17 5;
    mkCell 20 2; mkCell 20 3; mkCell 20 4; mkCell 21 2;
    mkCell 21 3; mkCell 21 4; mkCell 22 1; mkCell 22 5;
    mkCell 24 0; mkCell 24 1; mkCell 24 5; mkCell 24 6;
    mkCell 34 2; mkCell 34 3; mkCell 35 2; mkCell 35 3 ].

(** The cases of the [switch]; [None] is its [default] branch. *)
Definition catalog (pattern : ascii) : option (list Cell) :=
  if Ascii.eqb pattern "o" then Some oscillator
  else if Ascii.eqb pattern "g" then Some glider
  else if Ascii.eqb pattern "u" then Some glider_gun
  else None.

(** ** The methods of [Game] *)

(** [Game::clearGrid] *)
Definition clearGrid (g : Game) : outcome Game :=
  let! gr :=
    for_range 0 (width g) (fun col gr =>
      for_range 0 (height g) (fun row gr =>
        store gr col row DEAD) gr) (grid g) in
  Ok (with_grid g gr).

(** The sum of [Game::determineFate], lines 138-141. *)
Definition totalLiveNeighbors (gr : list (list Z)) (x y : Z) : outcome Z :=
  let! a := load gr (x - 1) (y - 1) in
  let! b := load gr (x - 1) y in
  let! s := int_add a b in
  let! c := load gr (x - 1) (y + 1) in
  let! s := int_add s c in
  let! d := load gr x (y - 1) in
  let! s := int_add s d in
  let! e := load gr x (y + 1) in
  let! s := int_add s e in
  let! f := load gr (x + 1) (y - 1) in
  let! s := int_add s f in
  let! h := load gr (x + 1) y in
  let! s := int_add s h in
  let! k := load gr (x + 1) (y + 1) in
  int_add s k.

(** [Game::determineFate]: reads [grid], writes [nextGrid]. *)
Definition determineFate (g : Game) (c : Cell) (nextGrid : list (list Z))
    : outcome (list (list Z)) :=
  let x := Cell_x c in
  let y := Cell_y c in
  let! total := totalLiveNeighbors (grid g) x y in
  if (total <? 2) || (total >? 3) then
    store nextGrid x y DEAD
  else if total =? 2 then
    let! cur := load (grid g) x y in
    store nextGrid x y cur
  else
    store nextGrid x y ALIVE.

(** [Game::initializePattern] *)
Definition initializePattern (g : Game) : outcome Game :=
  let len := Z.of_nat (length (patternCells g)) in
  let! gr :=
    for_range 0 len (fun cell gr =>
      let! cur := index (patternCells g) cell in
      store gr (Cell_x cur) (Cell_y cur) ALIVE) (grid g) in
  Ok (with_grid g gr).

(** [Game::setPatternVector] *)
Definition setPatternVector (pattern : ascii) (xOffset yOffset : Z) (g : Game)
    : outcome Game :=
  let cells :=
    match catalog pattern with
    | Some base => base
    | None => patternCells g
    end in
  let len := Z.of_nat (length cells) in
  let! cells :=
    for_range 0 len (fun cell cells =>
      let! cur := index cells cell in
      let! dx := int_add (buffer g) xOffset in
      let! x' := int_add (Cell_x cur) dx in
      let! cells := assign cells cell (mkCell x' (Cell_y cur)) in
      let! cur := index cells cell in
      let! dy := int_add (buffer g) yOffset in
      let! y' := int_add (Cell_y cur) dy in
      assign cells cell (mkCell (Cell_x cur) y')) cells in
  Ok (with_patternCells g cells).

(** The character printed for a cell. *)
Definition glyph (v : Z) : ascii :=
  if v =? ALIVE then "X"%char else "."%char.

Definition newline : ascii := ascii_of_nat 10.

(** [Game::printWholeGrid], appending to the stream [out]. *)
Definition printWholeGrid (g : Game) (out : list ascii) : outcome (list ascii) :=
  for_range 0 (height g) (fun row out =>
    let! out :=
      for_range 0 (width g) (fun col out =>
        let! v := load (grid g) col row in
        Ok (out ++ [glyph v])) out in
    Ok (out ++ [newline])) out.

(** [Game::printWindow], appending to the stream [out]. *)
Definition printWindow (g : Game) (out : list ascii) : outcome (list ascii) :=
  for_range (buffer g) (height g - buffer g) (fun row out =>
    let! out :=
      for_range (buffer g) (width g - buffer g) (fun col out =>
        let! v := load (grid g) col row in
        Ok (out ++ [glyph v])) out in
    Ok (out ++ [newline])) out.

Section Allocation.

(** What a freshly allocated [int] holds. *)
Variable indeterminate : Z.

(** [new int*[w]] followed by the loop allocating each column. *)
Definition new_grid (w h : Z) : outcome (list (list Z)) :=
  let! rows := new_array w [] in
  for_range 0 w (fun col gr =>
    let! column := new_array h indeterminate in
    assign gr col column) rows.

(** [Game::tick] *)
Definition tick (g : Game) : outcome Game :=
  let! nextGrid := new_array (width g) [] in
  let! nextGrid :=
    for_range 0 (width g) (fun col nextGrid =>
      let! column := new_array (height g) indeterminate in
      let! nextGrid := assign nextGrid col column in
      for_range 0 (height g) (fun row nextGrid =>
        store nextGrid col row DEAD) nextGrid) nextGrid in
  let! nextGrid :=
    for_range 1 (width g - 1) (fun x nextGrid =>
      for_range 1 (height g - 1) (fun y nextGrid =>
        determineFate g (mkCell x y) nextGrid) nextGrid) nextGrid in
  let! gr :=
    for_range 1 (width g - 1) (fun x gr =>
      for_range 1 (height g - 1) (fun y gr =>
        let! v := load nextGrid x y in
        store gr x y v) gr) (grid g) in
  Ok (with_grid g gr).

(** The constructor [Game::Game]. *)
Definition Game_new (width height : Z) (pattern : ascii)
    (xOffset yOffset generations pauseLength : Z) : outcome Game :=
  let buffer := 5 in
  let! w := int_add width (2 * buffer) in
  let! h := int_add height (2 * buffer) in
  let! gr := new_grid w h in
  let g := mkGame w h buffer generations pauseLength gr [] in
  let! g := clearGrid g in
  let! g := setPatternVector pattern xOffset yOffset g in
  initializePattern g.

(** [n] calls of [tick]. *)
Fixpoint ticks (n : nat) (g : Game) : outcome Game :=
  match n with
  | O => Ok g
  | S n' => let! g' := tick g in ticks n' g'
  end.

End Allocation.

(** ** Vocabulary for stating what the methods do *)

(** *** Grids *)

(** [gr] is an array of [w] columns of [h] cells each. *)
Definition shaped (w h : Z) (gr : list (list Z)) : Prop :=
  length gr = Z.to_nat w /\ Forall (fun col => length col = Z.to_nat h) gr.

Definition in_grid (w h x y : Z) : Prop := 0 <= x < w /\ 0 <= y < h.

(** Interior cells: those off the outermost one-cell border. *)
Definition interior (w h x y : Z) : Prop := 1 <= x < w - 1 /\ 1 <= y < h - 1.

Definition on_border (w h x y : Z) : Prop :=
  in_grid w h x y /\ (x = 0 \/ x = w - 1 \/ y = 0 \/ y = h - 1).

#[global] Instance in_grid_dec w h x y : Decision (in_grid w h x y).
Proof. unfold in_grid; apply _. Defined.

#[global] Instance interior_dec w h x y : Decision (interior w h x y).
Proof. unfold interior; apply _. Defined.

(** Every cell that can be read is ALIVE or DEAD. *)
Definition binary (gr : list (list Z)) : Prop :=
  forall x y v, load gr x y = Ok v -> v = ALIVE \/ v = DEAD.

(** The shape [tick] relies on: the arrays have the recorded sizes, and the
    sizes are ones [new] accepts. *)
Definition well_formed (g : Game) : Prop :=
  shaped (width g) (height g) (grid g) /\
  0 <= width g /\ (0 < width g -> 0 <= height g).

(** The outermost one-cell border holds no live cell. *)
Definition border_dead (g : Game) : Prop :=
  forall x y, on_border (width g) (height g) x y -> load (grid g) x y = Ok DEAD.

(** The grid [gr] holds exactly the picture [f]. *)
Definition shows (w h : Z) (gr : list (list Z)) (f : Z -> Z -> Z) : Prop :=
  forall px py, in_grid w h px py -> load gr px py = Ok (f px py).

(** Executable checks of [shaped] and [binary]. *)
Definition shapedb (w h : Z) (gr : list (list Z)) : bool :=
  (Z.of_nat (length gr) =? Z.max 0 w) &&
  forallb (fun col => Z.of_nat (length col) =? Z.max 0 h) gr.

Definition binaryb (gr : list (list Z)) : bool :=
  forallb (forallb (fun v => (v =? ALIVE) || (v =? DEAD))) gr.

(** Total readings of a grid: the cell at [(x, y)] and the sum of its
    eight neighbours, where these can be read. *)
Definition cell (gr : list (list Z)) (x y : Z) : Z :=
  match load gr x y with
  | Ok v => v
  | Fail _ => DEAD
  end.

Definition neighbours (gr : list (list Z)) (x y : Z) : Z :=
  match totalLiveNeighbors gr x y with
  | Ok n => n
  | Fail _ => 0
  end.

(** The cells a column-by-column scan of the rectangle
    [lox, hix) x [loy, hiy) has passed when it stands at [(x, y)]. *)
Definition scanned (lox hix loy hiy x y px py : Z) : Prop :=
  lox <= px < hix /\ loy <= py < hiy /\ (px < x \/ (px = x /\ py < y)).

#[local] Instance scanned_dec lox hix loy hiy x y px py :
  Decision (scanned lox hix loy hiy x y px py).
Proof. unfold scanned; apply _. Defined.

(** *** The rule *)

(** The rule as section 4.2 of the specification words it, a function of
    the current state and the number of live neighbours; [determineFate]
    is compared with it. *)
Definition nextState (currentState liveNeighborCount : Z) : Z :=
  if (liveNeighborCount <? 2) || (liveNeighborCount >? 3) then DEAD
  else if liveNeighborCount =? 2 then currentState
  else ALIVE.

(** *** Patterns *)

#[global] Instance Cell_eq_dec : EqDecision Cell.
Proof. solve_decision. Defined.

(** A cell moved by [(dx, dy)]: what the second loop of [setPatternVector]
    makes of each base cell, with [dx = buffer + xOffset] and
    [dy = buffer + yOffset]. *)
Definition shift (dx dy : Z) (c : Cell) : Cell :=
  mkCell (Cell_x c + dx) (Cell_y c + dy).

(** The base cells [setPatternVector] starts from. *)
Definition base_cells (pattern : ascii) (g : Game) : list Cell :=
  match catalog pattern with
  | Some base => base
  | None => patternCells g
  end.

(** The cells the constructor stamps for a pattern key: those of the
    catalog, and none for a key the [switch] does not list. *)
Definition stamped (pattern : ascii) : list Cell :=
  match catalog pattern with
  | Some base => base
  | None => []
  end.

(** Every cell of [cells], moved by [(dx, dy)], is a cell of the grid. *)
Definition fits (w h dx dy : Z) (cells : list Cell) : Prop :=
  Forall (fun c => in_grid w h (Cell_x c + dx) (Cell_y c + dy)) cells.

(** Every cell of [cells], moved by the offsets, lies in the visible
    window of [width] x [height] cells: the precondition the constructor
    documents for its offsets. *)
Definition in_window (width height xOffset yOffset : Z) (cells : list Cell) : Prop :=
  Forall (fun c => 0 <= xOffset + Cell_x c < width /\
                   0 <= yOffset + Cell_y c < height) cells.

(** The two phases of the blinker whose vertical phase occupies
    [(x, y)], [(x, y + 1)], [(x, y + 2)]. *)
Definition vertical_blinker (x y px py : Z) : Z :=
  if decide (px = x /\ y <= py <= y + 2) then ALIVE else DEAD.

Definition horizontal_blinker (x y px py : Z) : Z :=
  if decide (py = y + 1 /\ x - 1 <= px <= x + 1) then ALIVE else DEAD.

(** *** States of the program *)

(** A game constructed with its pattern inside the visible window, and
    whatever [tick] makes of it. *)
Inductive reachable (junk : Z) : Game -> Prop :=
  | reach_new (width height : Z) (pattern : ascii)
      (xOffset yOffset generations pauseLength : Z) (g : Game) :
      in_window width height xOffset yOffset (stamped pattern) ->
      Game_new junk width height pattern xOffset yOffset generations pauseLength
        = Ok g ->
      reachable junk g
  | reach_tick (g g' : Game) :
      reachable junk g -> tick junk g = Ok g' -> reachable junk g'.

(** A 5 x 5 world holding three live cells in column 2. *)
Definition small_world : Game :=
  mkGame 5 5 1 1 1
    [ [0; 0; 0; 0; 0];
      [0; 0; 0; 0; 0];
      [0; 1; 1; 1; 0];
      [0; 0; 0; 0; 0];
      [0; 0; 0; 0; 0] ] [].

(** *** Output *)

(** What the two printing methods write: one row of glyphs per grid row,
    each followed by a line feed. *)
Definition row_text (gr : list (list Z)) (x0 len row : Z) : list ascii :=
  map (fun col => glyph (cell gr col row)) (seqZ x0 len).

Definition picture (gr : list (list Z)) (x0 y0 wlen hlen : Z) : list (list ascii) :=
  map (row_text gr x0 wlen) (seqZ y0 hlen).

Definition lines (rows : list (list ascii)) : list ascii :=
  concat (map (fun r => r ++ [newline]) rows).

(** A line of output, written as a string. *)
Definition text (s : String.string) : list ascii :=
  String.list_ascii_of_string s.

Arguments text s%_string_scope.


(** ** The run loop *)

(** What reaches the terminal. *)
Inductive event : Type :=
  | Write (c : ascii)
  | Flush
  | Clear
  | Sleep (usec : Z).

(** The argument of [usleep] is a [useconds_t], an unsigned 32-bit integer
    on the UNIX systems the source names: the [int] it is given is
    converted modulo 2^32, so that -1 is passed as 4294967295. *)
Definition to_useconds (z : Z) : Z := z mod 4294967296.

(** [Game::play].  The characters [printWindow] sends to [std::cout] reach
    the console as [Write] events; [std::cout.flush()], [system("clear")]
    and [usleep(pauseLength)], with its argument as [usleep] receives it,
    are the other three events. *)
Definition play (indeterminate : Z) (g : Game) (console : list event)
    : outcome (Game * list event) :=
  let console := console ++ [Flush] in
  let console := console ++ [Clear] in
  for_range 0 (generations g) (fun gen state =>
    let g := fst state in
    let console := snd state in
    let! frame := printWindow g [] in
    let console := console ++ map Write frame in
    let console := console ++ [Sleep (to_useconds (pauseLength g))] in
    let console := console ++ [Flush] in
    let console := console ++ [Clear] in
    let! g := tick indeterminate g in
    Ok (g, console)) (g, console).

(** ** Patterns on the unbounded plane *)

(** The picture of the cells [cells] placed with their origin at [(x, y)]. *)
Definition pattern_at (cells : list Cell) (x y px py : Z) : Z :=
  if decide (mkCell (px - x) (py - y) ∈ cells) then ALIVE else DEAD.

(** All cells lie in the square [0, k] x [0, k]. *)
Definition within (k : Z) (cells : list Cell) : bool :=
  forallb (fun c => (0 <=? Cell_x c) && (Cell_x c <=? k) &&
                    (0 <=? Cell_y c) && (Cell_y c <=? k)) cells.

(** At the place [(dx, dy)] the rule turns the pattern [P] into [P']. *)
Definition rule_at (P P' : list Cell) (dx dy : Z) : bool :=
  nextState (pattern_at P 0 0 dx dy)
    (pattern_at P 0 0 (dx - 1) (dy - 1) + pattern_at P 0 0 (dx - 1) dy +
     pattern_at P 0 0 (dx - 1) (dy + 1) +
     pattern_at P 0 0 dx (dy - 1) + pattern_at P 0 0 dx (dy + 1) +
     pattern_at P 0 0 (dx + 1) (dy - 1) + pattern_at P 0 0 (dx + 1) dy +
     pattern_at P 0 0 (dx + 1) (dy + 1))
  =? pattern_at P' 0 0 dx dy.

(** An executable check that one generation turns [P] into [P'], both
    inside the square [0, k] x [0, k]: the rule is tried at every place at
    most one cell away from the square. *)
Definition evolves (k : Z) (P P' : list Cell) : bool :=
  within k P && within k P' &&
  forallb (fun dx => forallb (fun dy => rule_at P P' dx dy) (seqZ (-1) (k + 3)))
          (seqZ (-1) (k + 3)).

(** The block, and the three phases that follow [glider]. *)
Definition block : list Cell :=
  [ mkCell 0 0; mkCell 0 1; mkCell 1 0; mkCell 1 1 ].

Definition glider_1 : list Cell :=
  [ mkCell 0 1; mkCell 1 2; mkCell 1 3; mkCell 2 1; mkCell 2 2 ].

Definition glider_2 : list Cell :=
  [ mkCell 0 2; mkCell 1 3; mkCell 2 1; mkCell 2 2; mkCell 2 3 ].

Definition glider_3 : list Cell :=
  [ mkCell 1 1; mkCell 1 3; mkCell 2 2; mkCell 2 3; mkCell 3 2 ].

(** A 6 x 6 world holding a block. *)
Definition block_world : Game :=
  mkGame 6 6 1 3 1000
    [ [0; 0; 0; 0; 0; 0];
      [0; 0; 0; 0; 0; 0];
      [0; 0; 1; 1; 0; 0];
      [0; 0; 1; 1; 0; 0];
      [0; 0; 0; 0; 0; 0];
      [0; 0; 0; 0; 0; 0] ] [].

#[local] Instance fits_dec w h dx dy cells : Decision (fits w h dx dy cells).
Proof. unfold fits; apply _. Defined.

(** What [printWindow] writes for a game: the visible window, line by
    line. *)
Definition window (g : Game) : list ascii :=
  lines (picture (grid g) (buffer g) (buffer g)
                 (width g - 2 * buffer g) (height g - 2 * buffer g)).

(** What one generation of [play] sends to the terminal after the frame
    [frame]. *)
Definition shown_frame (pause : Z) (frame : list ascii) : list event :=
  map Write frame ++ [Sleep pause; Flush; Clear].

(** A game [play] can run: the shape [tick] relies on, binary cells, and a
    margin that is not negative. *)
Definition playable (g : Game) : Prop :=
  well_formed g /\ binary (grid g) /\ 0 <= buffer g.
(** ** Basic facts: the monad, machine integers, arrays *)

Lemma bind_Ok {A B : Type} (m : outcome A) (k : A -> outcome B) (b : B) :
  bind m k = Ok b <-> exists a, m = Ok a /\ k a = Ok b.
Proof.
  destruct m as [a|f]; simpl; split.
  - intros H; exists a; auto.
  - intros (a' & Ha & Hk); congruence.
  - discriminate.
  - intros (a' & Ha & _); discriminate.
Qed.

Lemma int_of_ok (z : Z) : int_range z -> int_of z = Ok z.
Proof. intros H; unfold int_of; case_decide; [reflexivity | contradiction]. Qed.

Lemma int_add_ok (a b : Z) : int_range (a + b) -> int_add a b = Ok (a + b).
Proof. apply int_of_ok. Qed.

Lemma int_add_Ok_inv (a b c : Z) : int_add a b = Ok c -> c = a + b /\ int_range c.
Proof.
  unfold int_add, int_of; case_decide; [|discriminate].
  intros [= <-]; split; [reflexivity | assumption].
Qed.

Lemma index_Ok {A : Type} (a : list A) (i : Z) (v : A) :
  index a i = Ok v <-> 0 <= i /\ a !! Z.to_nat i = Some v.
Proof.
  unfold index; case_decide as Hi.
  - destruct (a !! Z.to_nat i) as [u|]; split.
    + intros [= ->]; auto.
    + intros [_ [= ->]]; reflexivity.
    + discriminate.
    + intros [_ ?]; discriminate.
  - split; [discriminate | intros [? _]; contradiction].
Qed.

Lemma index_in_range {A : Type} (a : list A) (i : Z) :
  0 <= i < Z.of_nat (length a) -> exists v, index a i = Ok v.
Proof.
  intros Hi. destruct (lookup_lt_is_Some_2 a (Z.to_nat i)) as [v Hv]; [lia|].
  exists v; apply index_Ok; split; [lia | exact Hv].
Qed.

Lemma index_Ok_range {A : Type} (a : list A) (i : Z) (v : A) :
  index a i = Ok v -> 0 <= i < Z.of_nat (length a).
Proof.
  intros (Hi & Hv)%index_Ok. apply lookup_lt_Some in Hv. lia.
Qed.

Lemma index_of_nat {A : Type} (a : list A) (n : nat) (v : A) :
  a !! n = Some v -> index a (Z.of_nat n) = Ok v.
Proof. intros H; apply index_Ok; rewrite Nat2Z.id; split; [lia | exact H]. Qed.

Lemma assign_Ok {A : Type} (a : list A) (i : Z) (v : A) :
  0 <= i < Z.of_nat (length a) -> assign a i v = Ok (<[Z.to_nat i := v]> a).
Proof.
  intros Hi; unfold assign. destruct (index_in_range a i Hi) as [u ->]. reflexivity.
Qed.

Lemma assign_Ok_inv {A : Type} (a b : list A) (i : Z) (v : A) :
  assign a i v = Ok b -> 0 <= i < Z.of_nat (length a) /\ b = <[Z.to_nat i := v]> a.
Proof.
  unfold assign; intros (u & Hu & [= <-])%bind_Ok.
  split; [exact (index_Ok_range _ _ _ Hu) | reflexivity].
Qed.

Lemma index_insert {A : Type} (a : list A) (i j : Z) (v : A) :
  0 <= i < Z.of_nat (length a) ->
  index (<[Z.to_nat i := v]> a) j = if decide (j = i) then Ok v else index a j.
Proof.
  intros Hi. case_decide as Hj.
  - subst j. apply index_Ok; split; [lia|]. apply list_lookup_insert_eq; lia.
  - unfold index. case_decide; [|reflexivity].
    rewrite list_lookup_insert_ne; [reflexivity | lia].
Qed.

(** ** Loops: an invariant rule and its corollaries *)

Lemma for_count_rule {T : Type} (I : Z -> T -> Prop)
    (body : Z -> T -> outcome T) (n : nat) (lo : Z) (s : T) :
  I lo s ->
  (forall i t, lo <= i < lo + Z.of_nat n -> I i t ->
     exists t', body i t = Ok t' /\ I (i + 1) t') ->
  exists s', for_count n lo body s = Ok s' /\ I (lo + Z.of_nat n) s'.
Proof.
  revert lo s; induction n as [|n IH]; intros lo s H0 Hstep.
  - exists s; simpl; split; [reflexivity|]. now replace (lo + Z.of_nat 0) with lo by lia.
  - destruct (Hstep lo s) as (t & Ht & HI); [lia | exact H0 |].
    destruct (IH (lo + 1) t HI) as (s' & Hs' & HI').
    + intros i u Hi Hu; apply Hstep; [lia | exact Hu].
    + exists s'; simpl; rewrite Ht; simpl; split; [exact Hs'|].
      now replace (lo + Z.of_nat (S n)) with (lo + 1 + Z.of_nat n) by lia.
Qed.

Lemma for_range_rule {T : Type} (I : Z -> T -> Prop)
    (body : Z -> T -> outcome T) (lo hi : Z) (s : T) :
  lo <= hi ->
  I lo s ->
  (forall i t, lo <= i < hi -> I i t ->
     exists t', body i t = Ok t' /\ I (i + 1) t') ->
  exists s', for_range lo hi body s = Ok s' /\ I hi s'.
Proof.
  intros Hle H0 Hstep. unfold for_range.
  destruct (for_count_rule I body (Z.to_nat (hi - lo)) lo s H0) as (s' & Hs' & HI).
  - intros i t Hi; apply Hstep; lia.
  - exists s'; split; [exact Hs'|]. now replace hi with (lo + Z.of_nat (Z.to_nat (hi - lo))) by lia.
Qed.

Lemma for_range_empty {T : Type} (body : Z -> T -> outcome T) (lo hi : Z) (s : T) :
  hi <= lo -> for_range lo hi body s = Ok s.
Proof. intros H; unfold for_range. now replace (Z.to_nat (hi - lo)) with O by lia. Qed.

(** A loop whose invariant does not mention the counter. *)
Lemma for_range_preserves {T : Type} (P : T -> Prop)
    (body : Z -> T -> outcome T) (lo hi : Z) (s : T) :
  P s ->
  (forall i t, lo <= i < hi -> P t -> exists t', body i t = Ok t' /\ P t') ->
  exists s', for_range lo hi body s = Ok s' /\ P s'.
Proof.
  intros H0 Hstep. destruct (Z_le_gt_dec lo hi) as [Hle|Hgt].
  - apply (for_range_rule (fun _ => P)); assumption.
  - exists s; split; [apply for_range_empty; lia | exact H0].
Qed.

(** ** Grids of a given shape: reading and writing *)

Lemma interior_in_grid w h x y : interior w h x y -> in_grid w h x y.
Proof. unfold interior, in_grid; lia. Qed.

Lemma load_Ok (gr : list (list Z)) (x y v : Z) :
  load gr x y = Ok v <->
  0 <= x /\ 0 <= y /\
  exists col, gr !! Z.to_nat x = Some col /\ col !! Z.to_nat y = Some v.
Proof.
  unfold load; rewrite bind_Ok; split.
  - intros (col & (Hx & Hc)%index_Ok & (Hy & Hv)%index_Ok); eauto 6.
  - intros (Hx & Hy & col & Hc & Hv); exists col; rewrite !index_Ok; auto.
Qed.

Lemma shaped_load (w h : Z) (gr : list (list Z)) (x y : Z) :
  shaped w h gr -> in_grid w h x y -> exists v, load gr x y = Ok v.
Proof.
  intros [Hlen Hcols] [Hx Hy].
  destruct (lookup_lt_is_Some_2 gr (Z.to_nat x)) as [col Hc]; [lia|].
  pose proof (proj1 (Forall_lookup _ _) Hcols _ _ Hc) as Hl; simpl in Hl.
  destruct (lookup_lt_is_Some_2 col (Z.to_nat y)) as [v Hv]; [lia|].
  exists v; apply load_Ok; eauto 6 with lia.
Qed.

Lemma load_in_grid (w h : Z) (gr : list (list Z)) (x y v : Z) :
  shaped w h gr -> load gr x y = Ok v -> in_grid w h x y.
Proof.
  intros [Hlen Hcols] (Hx & Hy & col & Hc & Hv)%load_Ok.
  pose proof (proj1 (Forall_lookup _ _) Hcols _ _ Hc) as Hl; simpl in Hl.
  apply lookup_lt_Some in Hc, Hv. unfold in_grid; lia.
Qed.

Lemma store_spec (w h : Z) (gr : list (list Z)) (x y v : Z) :
  shaped w h gr -> in_grid w h x y ->
  exists gr', store gr x y v = Ok gr' /\ shaped w h gr' /\
    forall x' y', load gr' x' y' =
      if decide (x' = x /\ y' = y) then Ok v else load gr x' y'.
Proof.
  intros [Hlen Hcols] [Hx Hy].
  destruct (lookup_lt_is_Some_2 gr (Z.to_nat x)) as [col Hc]; [lia|].
  pose proof (proj1 (Forall_lookup _ _) Hcols _ _ Hc) as Hl; simpl in Hl.
  exists (<[Z.to_nat x := <[Z.to_nat y := v]> col]> gr). split; [|split].
  - unfold store. rewrite (proj2 (index_Ok gr x col)) by (split; [lia | exact Hc]).
    simpl. rewrite assign_Ok by lia. reflexivity.
  - split; [rewrite length_insert; exact Hlen|].
    apply Forall_insert; [exact Hcols|]. rewrite length_insert; exact Hl.
  - intros x' y'. destruct (decide (x' = x /\ y' = y)) as [[-> ->]|Hxy];
      unfold load; rewrite index_insert by lia.
    + rewrite decide_True by reflexivity. simpl.
      rewrite index_insert by lia. now rewrite decide_True.
    + destruct (decide (x' = x)) as [->|Hne]; [|reflexivity].
      simpl. rewrite index_insert by lia. rewrite decide_False by tauto.
      rewrite (proj2 (index_Ok gr x col)) by (split; [lia | exact Hc]). reflexivity.
Qed.

Lemma grid_ext (w h : Z) (a b : list (list Z)) :
  shaped w h a -> shaped w h b ->
  (forall x y, in_grid w h x y -> load a x y = load b x y) ->
  a = b.
Proof.
  intros [Hla Hca] [Hlb Hcb] Heq.
  apply list_eq_same_length with (n := length a); [congruence | reflexivity |].
  intros i ca cb Hi Ha Hb.
  pose proof (proj1 (Forall_lookup _ _) Hca _ _ Ha) as Hlca; simpl in Hlca.
  pose proof (proj1 (Forall_lookup _ _) Hcb _ _ Hb) as Hlcb; simpl in Hlcb.
  apply list_eq_same_length with (n := length ca); [congruence | reflexivity |].
  intros j u v Hj Hu Hv.
  assert (Hin : in_grid w h (Z.of_nat i) (Z.of_nat j)) by (unfold in_grid; lia).
  specialize (Heq _ _ Hin).
  assert (Hlu : load a (Z.of_nat i) (Z.of_nat j) = Ok u)
    by (apply load_Ok; rewrite !Nat2Z.id; eauto 6 with lia).
  assert (Hlv : load b (Z.of_nat i) (Z.of_nat j) = Ok v)
    by (apply load_Ok; rewrite !Nat2Z.id; eauto 6 with lia).
  congruence.
Qed.

Lemma for_range_max {T : Type} (I : Z -> T -> Prop)
    (body : Z -> T -> outcome T) (lo hi : Z) (s : T) :
  I lo s ->
  (forall i t, lo <= i < hi -> I i t ->
     exists t', body i t = Ok t' /\ I (i + 1) t') ->
  exists s', for_range lo hi body s = Ok s' /\ I (Z.max lo hi) s'.
Proof.
  intros H0 Hstep. destruct (Z_le_gt_dec lo hi) as [Hle|Hgt].
  - rewrite Z.max_r by lia. apply for_range_rule; assumption.
  - rewrite Z.max_l by lia. exists s; split; [apply for_range_empty; lia | exact H0].
Qed.

Lemma load_cell (gr : list (list Z)) (x y v : Z) : load gr x y = Ok v -> cell gr x y = v.
Proof. unfold cell; intros ->; reflexivity. Qed.

Lemma shaped_load_cell (w h : Z) (gr : list (list Z)) (x y : Z) :
  shaped w h gr -> in_grid w h x y -> load gr x y = Ok (cell gr x y).
Proof.
  intros Hs Hin. destruct (shaped_load w h gr x y Hs Hin) as [v Hv].
  now rewrite (load_cell _ _ _ _ Hv).
Qed.

(** ** Scanning a rectangle of a grid, one store per cell *)

Lemma scan_rule (w h lox hix loy hiy : Z)
    (body : Z -> Z -> list (list Z) -> outcome (list (list Z)))
    (f : Z -> Z -> Z) (gr0 : list (list Z)) :
  shaped w h gr0 ->
  0 <= lox -> hix <= w -> 0 <= loy -> hiy <= h ->
  (forall x y gr, lox <= x < hix -> loy <= y < hiy -> shaped w h gr ->
     body x y gr = store gr x y (f x y)) ->
  exists gr',
    for_range lox hix (fun x gr =>
      for_range loy hiy (fun y gr => body x y gr) gr) gr0 = Ok gr' /\
    shaped w h gr' /\
    forall x y, load gr' x y =
      if decide (lox <= x < hix /\ loy <= y < hiy) then Ok (f x y)
      else load gr0 x y.
Proof.
  intros Hs0 Hlox Hhix Hloy Hhiy Hbody.
  set (I := fun (cx cy : Z) (gr : list (list Z)) =>
    shaped w h gr /\
    forall px py, load gr px py =
      if decide (scanned lox hix loy hiy cx cy px py) then Ok (f px py)
      else load gr0 px py).
  destruct (for_range_max (fun cx => I cx loy)
    (fun x gr => for_range loy hiy (fun y gr => body x y gr) gr)
    lox hix gr0) as (gr' & Hrun & Hsh & Hall).
  - split; [exact Hs0|]. intros px py.
    rewrite decide_False; [reflexivity | unfold scanned; lia].
  - intros cx gr Hcx [Hsh Hall].
    destruct (for_range_max (I cx) (fun y gr => body cx y gr) loy hiy gr)
      as (gr1 & Hrun1 & Hsh1 & Hall1).
    + split; assumption.
    + intros cy gr2 Hcy [Hsh2 Hall2].
      rewrite (Hbody cx cy gr2 Hcx Hcy Hsh2).
      destruct (store_spec w h gr2 cx cy (f cx cy) Hsh2) as (gr3 & Hst & Hsh3 & Hld3);
        [unfold in_grid; lia|].
      exists gr3; split; [exact Hst|]. split; [exact Hsh3|].
      intros px py. rewrite Hld3, Hall2.
      destruct (decide (px = cx /\ py = cy)) as [[-> ->]|Hne].
      * rewrite decide_True; [reflexivity | unfold scanned; lia].
      * destruct (decide (scanned lox hix loy hiy cx cy px py)) as [Hsc|Hsc].
        -- rewrite decide_True; [reflexivity | unfold scanned in *; lia].
        -- rewrite decide_False; [reflexivity | unfold scanned in *; lia].
    + exists gr1; split; [exact Hrun1|]. split; [exact Hsh1|].
      intros px py. rewrite Hall1.
      destruct (decide (scanned lox hix loy hiy cx (Z.max loy hiy) px py)) as [Hsc|Hsc].
      * rewrite decide_True; [reflexivity | unfold scanned in *; lia].
      * rewrite decide_False; [reflexivity | unfold scanned in *; lia].
  - exists gr'; split; [exact Hrun|]. split; [exact Hsh|].
    intros px py. rewrite Hall.
    destruct (decide (lox <= px < hix /\ loy <= py < hiy)) as [Hin|Hout].
    + rewrite decide_True; [reflexivity | unfold scanned; lia].
    + rewrite decide_False; [reflexivity | unfold scanned; lia].
Qed.

(** ** [clearGrid] *)

Lemma clearGrid_spec (g : Game) :
  shaped (width g) (height g) (grid g) ->
  exists gr', clearGrid g = Ok (with_grid g gr') /\
    shaped (width g) (height g) gr' /\
    forall x y, in_grid (width g) (height g) x y -> load gr' x y = Ok DEAD.
Proof.
  intros Hs.
  destruct (scan_rule (width g) (height g) 0 (width g) 0 (height g)
              (fun x y gr => store gr x y DEAD) (fun _ _ => DEAD) (grid g))
    as (gr' & Hrun & Hsh & Hall); try lia; [exact Hs | reflexivity |].
  exists gr'. unfold clearGrid. rewrite Hrun. simpl.
  split; [reflexivity|]. split; [exact Hsh|].
  intros x y Hin. rewrite Hall. now rewrite decide_True.
Qed.

(** ** [determineFate] *)

Lemma binary_cell (w h : Z) (gr : list (list Z)) (x y : Z) :
  shaped w h gr -> binary gr -> in_grid w h x y ->
  cell gr x y = ALIVE \/ cell gr x y = DEAD.
Proof.
  intros Hs Hb Hin. exact (Hb x y _ (shaped_load_cell w h gr x y Hs Hin)).
Qed.

Lemma binary_cell_range (w h : Z) (gr : list (list Z)) (x y : Z) :
  shaped w h gr -> binary gr -> in_grid w h x y -> 0 <= cell gr x y <= 1.
Proof.
  intros Hs Hb Hin. destruct (binary_cell w h gr x y Hs Hb Hin) as [-> | ->];
    unfold ALIVE, DEAD; lia.
Qed.

(** [H] speaks of the cell at [(x + dx, y + dy)] for offsets between -1 and
    1: state it for each of the eight neighbours of [(x, y)]. *)
Ltac all_around H x y :=
  pose proof (H (-1) (-1) ltac:(lia) ltac:(lia));
  pose proof (H (-1) 0 ltac:(lia) ltac:(lia));
  pose proof (H (-1) 1 ltac:(lia) ltac:(lia));
  pose proof (H 0 (-1) ltac:(lia) ltac:(lia));
  pose proof (H 0 1 ltac:(lia) ltac:(lia));
  pose proof (H 1 (-1) ltac:(lia) ltac:(lia));
  pose proof (H 1 0 ltac:(lia) ltac:(lia));
  pose proof (H 1 1 ltac:(lia) ltac:(lia));
  replace (x + -1) with (x - 1) in * by lia;
  replace (y + -1) with (y - 1) in * by lia;
  replace (x + 0) with x in * by lia;
  replace (y + 0) with y in * by lia.

Lemma totalLiveNeighbors_spec (w h : Z) (gr : list (list Z)) (x y : Z) :
  shaped w h gr -> binary gr -> interior w h x y ->
  totalLiveNeighbors gr x y =
    Ok (cell gr (x - 1) (y - 1) + cell gr (x - 1) y + cell gr (x - 1) (y + 1) +
        cell gr x (y - 1) + cell gr x (y + 1) +
        cell gr (x + 1) (y - 1) + cell gr (x + 1) y + cell gr (x + 1) (y + 1)).
Proof.
  intros Hs Hb [Hx Hy].
  assert (Hr : forall dx dy, -1 <= dx <= 1 -> -1 <= dy <= 1 ->
            load gr (x + dx) (y + dy) = Ok (cell gr (x + dx) (y + dy)) /\
            0 <= cell gr (x + dx) (y + dy) <= 1).
  { intros dx dy Hdx Hdy.
    assert (Hin : in_grid w h (x + dx) (y + dy)) by (unfold in_grid; lia).
    split; [apply (shaped_load_cell w h) | apply (binary_cell_range w h)]; assumption. }
  all_around Hr x y.
  unfold totalLiveNeighbors.
  repeat match goal with
         | H : load gr _ _ = Ok _ /\ _ |- _ => destruct H as [-> ?]
         end; simpl.
  repeat (rewrite int_add_ok by (unfold int_range, INT_MIN, INT_MAX; lia); simpl).
  reflexivity.
Qed.

Lemma neighbours_spec (w h : Z) (gr : list (list Z)) (x y : Z) :
  shaped w h gr -> binary gr -> interior w h x y ->
  totalLiveNeighbors gr x y = Ok (neighbours gr x y) /\
  0 <= neighbours gr x y <= 8.
Proof.
  intros Hs Hb Hi. pose proof (totalLiveNeighbors_spec w h gr x y Hs Hb Hi) as Ht.
  unfold neighbours. rewrite Ht. split; [reflexivity|].
  destruct Hi as [Hx Hy].
  assert (Hr : forall dx dy, -1 <= dx <= 1 -> -1 <= dy <= 1 ->
            0 <= cell gr (x + dx) (y + dy) <= 1).
  { intros dx dy Hdx Hdy. apply (binary_cell_range w h); [assumption..|].
    unfold in_grid; lia. }
  all_around Hr x y. lia.
Qed.

(** Whenever the sum and the cell can be read, [determineFate] stores the
    rule's value. *)
Lemma determineFate_store (g : Game) (x y cur n : Z) (nextGrid : list (list Z)) :
  totalLiveNeighbors (grid g) x y = Ok n ->
  load (grid g) x y = Ok cur ->
  determineFate g (mkCell x y) nextGrid = store nextGrid x y (nextState cur n).
Proof.
  intros Hn Hc. unfold determineFate, nextState; simpl. rewrite Hn; simpl.
  destruct ((n <? 2) || (n >? 3)); [reflexivity|].
  destruct (n =? 2); [|reflexivity]. rewrite Hc; reflexivity.
Qed.

Lemma determineFate_spec (w h : Z) (g : Game) (x y : Z) (nextGrid : list (list Z)) :
  shaped w h (grid g) -> binary (grid g) -> interior w h x y ->
  determineFate g (mkCell x y) nextGrid =
    store nextGrid x y (nextState (cell (grid g) x y) (neighbours (grid g) x y)).
Proof.
  intros Hs Hb Hi. apply determineFate_store.
  - apply (neighbours_spec w h); assumption.
  - apply (shaped_load_cell w h); [assumption | apply interior_in_grid; assumption].
Qed.

Lemma nextState_binary (cur n : Z) :
  cur = ALIVE \/ cur = DEAD -> nextState cur n = ALIVE \/ nextState cur n = DEAD.
Proof.
  intros Hc. unfold nextState.
  destruct ((n <? 2) || (n >? 3)); [right; reflexivity|].
  destruct (n =? 2); [exact Hc | left; reflexivity].
Qed.

(** ** Allocation *)

Lemma new_array_Ok {A : Type} (n : Z) (init : A) :
  0 <= n -> new_array n init = Ok (replicate (Z.to_nat n) init).
Proof. intros H; unfold new_array; now rewrite decide_True. Qed.

(** The inner loop of the first loop nest of [tick]: one column is filled. *)
Lemma fill_column (ng : list (list Z)) (c h : Z) (colv : list Z) :
  0 <= c -> ng !! Z.to_nat c = Some colv -> length colv = Z.to_nat h ->
  for_range 0 h (fun row ng => store ng c row DEAD) ng =
    Ok (<[Z.to_nat c := replicate (Z.to_nat h) DEAD]> ng).
Proof.
  intros Hc Hcol Hlen.
  pose proof (lookup_lt_Some _ _ _ Hcol) as Hlt.
  destruct (for_range_max
    (fun row ng' => exists colv', ng' = <[Z.to_nat c := colv']> ng /\
       length colv' = Z.to_nat h /\
       forall j, (j < Z.to_nat row)%nat -> colv' !! j = Some DEAD)
    (fun row ng => store ng c row DEAD) 0 h ng) as (ng' & Hrun & colv' & -> & Hl & Hall).
  - exists colv; split; [now rewrite list_insert_id|]. split; [exact Hlen|]. intros j Hj; lia.
  - intros row t Hrow (colv' & -> & Hl & Hall).
    exists (<[Z.to_nat c := <[Z.to_nat row := DEAD]> colv']> ng). split.
    + unfold store.
      rewrite (proj2 (index_Ok _ c colv'))
        by (split; [lia | apply list_lookup_insert_eq; lia]).
      simpl. rewrite assign_Ok by lia. simpl. now rewrite list_insert_insert_eq.
    + exists (<[Z.to_nat row := DEAD]> colv'). split; [reflexivity|].
      split; [rewrite length_insert; exact Hl|].
      intros j Hj. destruct (decide (j = Z.to_nat row)) as [->|Hne].
      * apply list_lookup_insert_eq; lia.
      * rewrite list_lookup_insert_ne by lia. apply Hall; lia.
  - rewrite Hrun. do 2 f_equal.
    apply list_eq_same_length with (n := Z.to_nat h);
      [apply length_replicate | exact Hl |].
    intros j u v Hj Hu Hv. rewrite Hall in Hu by lia.
    apply lookup_replicate in Hv as [-> _]. congruence.
Qed.

(** The first loop nest of [tick]: a scratch grid, every cell [DEAD]. *)
Lemma scratch_grid (junk w h : Z) :
  0 <= w -> (0 < w -> 0 <= h) ->
  for_range 0 w (fun col nextGrid =>
      let! column := new_array h junk in
      let! nextGrid := assign nextGrid col column in
      for_range 0 h (fun row nextGrid => store nextGrid col row DEAD) nextGrid)
    (replicate (Z.to_nat w) []) =
  Ok (replicate (Z.to_nat w) (replicate (Z.to_nat h) DEAD)).
Proof.
  intros Hw Hh.
  destruct (for_range_rule
    (fun c (ng : list (list Z)) => length ng = Z.to_nat w /\
       forall i, (i < Z.to_nat c)%nat -> ng !! i = Some (replicate (Z.to_nat h) DEAD))
    (fun col nextGrid =>
      let! column := new_array h junk in
      let! nextGrid := assign nextGrid col column in
      for_range 0 h (fun row nextGrid => store nextGrid col row DEAD) nextGrid)
    0 w (replicate (Z.to_nat w) [])) as (ng & Hrun & Hlen & Hall).
  - exact Hw.
  - split; [apply length_replicate | intros i Hi; lia].
  - intros c ng Hc [Hlen Hall].
    rewrite new_array_Ok by lia. simpl. rewrite assign_Ok by lia. simpl.
    rewrite (fill_column _ c h (replicate (Z.to_nat h) junk));
      [| lia | apply list_lookup_insert_eq; lia | apply length_replicate].
    eexists; split; [reflexivity|]. rewrite list_insert_insert_eq.
    split; [rewrite length_insert; exact Hlen|].
    intros i Hi. destruct (decide (i = Z.to_nat c)) as [->|Hne].
    + apply list_lookup_insert_eq; lia.
    + rewrite list_lookup_insert_ne by lia. apply Hall; lia.
  - rewrite Hrun. f_equal.
    apply list_eq_same_length with (n := Z.to_nat w);
      [apply length_replicate | exact Hlen |].
    intros i u v Hi Hu Hv. rewrite Hall in Hu by lia.
    apply lookup_replicate in Hv as [-> _]. congruence.
Qed.

Lemma shaped_replicate (w h v : Z) :
  shaped w h (replicate (Z.to_nat w) (replicate (Z.to_nat h) v)).
Proof.
  split; [apply length_replicate|].
  apply Forall_replicate, length_replicate.
Qed.

Lemma load_replicate (w h v x y : Z) :
  in_grid w h x y ->
  load (replicate (Z.to_nat w) (replicate (Z.to_nat h) v)) x y = Ok v.
Proof.
  intros [Hx Hy]. apply load_Ok. split; [lia|]. split; [lia|].
  exists (replicate (Z.to_nat h) v). split; apply lookup_replicate; split; auto; lia.
Qed.

(** ** [tick] *)

Lemma tick_spec (junk : Z) (g : Game) :
  well_formed g -> binary (grid g) ->
  exists gr', tick junk g = Ok (with_grid g gr') /\
    shaped (width g) (height g) gr' /\
    forall x y, load gr' x y =
      if decide (interior (width g) (height g) x y)
      then Ok (nextState (cell (grid g) x y) (neighbours (grid g) x y))
      else load (grid g) x y.
Proof.
  intros (Hs & Hw & Hh) Hb.
  set (w := width g) in *. set (h := height g) in *.
  set (f := fun x y => nextState (cell (grid g) x y) (neighbours (grid g) x y)).
  destruct (scan_rule w h 1 (w - 1) 1 (h - 1)
              (fun x y ng => determineFate g (mkCell x y) ng) f
              (replicate (Z.to_nat w) (replicate (Z.to_nat h) DEAD)))
    as (next & Hnext & Hsn & Hln); try lia.
  { apply shaped_replicate. }
  { intros x y ng Hx Hy _. apply (determineFate_spec w h); [assumption..|].
    split; assumption. }
  destruct (scan_rule w h 1 (w - 1) 1 (h - 1)
              (fun x y gr => let! v := load next x y in store gr x y v) f
              (grid g))
    as (gr' & Hrun & Hsg & Hlg); try lia.
  { exact Hs. }
  { intros x y gr Hx Hy _. rewrite Hln. rewrite decide_True by (split; assumption).
    reflexivity. }
  exists gr'. split; [|split; [exact Hsg|]].
  - unfold tick. fold w h. rewrite new_array_Ok by exact Hw. simpl.
    rewrite scratch_grid by assumption. simpl.
    cbv beta in Hnext. rewrite Hnext. simpl.
    cbv beta in Hrun. rewrite Hrun. reflexivity.
  - intros x y. rewrite Hlg. unfold interior. reflexivity.
Qed.


Lemma tick_binary (junk : Z) (g : Game) (gr' : list (list Z)) :
  well_formed g -> binary (grid g) ->
  tick junk g = Ok (with_grid g gr') -> binary gr'.
Proof.
  intros Hwf Hb Ht.
  destruct (tick_spec junk g Hwf Hb) as (gr1 & Ht1 & Hs1 & Hl1).
  rewrite Ht in Ht1. injection Ht1 as <-.
  intros x y v Hv. rewrite Hl1 in Hv. case_decide as Hi.
  - injection Hv as <-. apply nextState_binary.
    apply (binary_cell (width g) (height g)); [apply Hwf | exact Hb |].
    apply interior_in_grid; exact Hi.
  - exact (Hb x y v Hv).
Qed.

(** ** Pattern placement *)

Lemma shift_loop (b xo yo : Z) (cells : list Cell) :
  (cells <> [] -> int_range (b + xo) /\ int_range (b + yo)) ->
  Forall (fun c => int_range (Cell_x c + (b + xo)) /\
                   int_range (Cell_y c + (b + yo))) cells ->
  for_range 0 (Z.of_nat (length cells)) (fun cell cells =>
      let! cur := index cells cell in
      let! dx := int_add b xo in
      let! x' := int_add (Cell_x cur) dx in
      let! cells := assign cells cell (mkCell x' (Cell_y cur)) in
      let! cur := index cells cell in
      let! dy := int_add b yo in
      let! y' := int_add (Cell_y cur) dy in
      assign cells cell (mkCell (Cell_x cur) y')) cells =
  Ok (map (shift (b + xo) (b + yo)) cells).
Proof.
  intros Hoff Hall.
  destruct (for_range_rule
    (fun i (cs : list Cell) => length cs = length cells /\
       forall j c, cells !! j = Some c ->
         cs !! j = Some (if decide (j < Z.to_nat i)%nat
                         then shift (b + xo) (b + yo) c else c))
    (fun cell cells =>
      let! cur := index cells cell in
      let! dx := int_add b xo in
      let! x' := int_add (Cell_x cur) dx in
      let! cells := assign cells cell (mkCell x' (Cell_y cur)) in
      let! cur := index cells cell in
      let! dy := int_add b yo in
      let! y' := int_add (Cell_y cur) dy in
      assign cells cell (mkCell (Cell_x cur) y'))
    0 (Z.of_nat (length cells)) cells) as (cs & Hrun & Hlen & Hcs).
  - lia.
  - split; [reflexivity|]. intros j c Hj. rewrite decide_False by lia. exact Hj.
  - intros i cs Hi [Hlen Hcs].
    destruct (lookup_lt_is_Some_2 cells (Z.to_nat i)) as [c Hc]; [lia|].
    pose proof (Hcs _ _ Hc) as Hci. rewrite decide_False in Hci by lia.
    pose proof (proj1 (Forall_lookup _ _) Hall _ _ Hc) as [Hrx Hry]; simpl in Hrx, Hry.
    destruct Hoff as [Hox Hoy]; [intros ->; discriminate|].
    rewrite (proj2 (index_Ok cs i c)) by (split; [lia | exact Hci]). simpl.
    rewrite (int_add_ok b xo Hox). simpl.
    rewrite (int_add_ok _ _ Hrx). simpl.
    rewrite assign_Ok by lia. simpl.
    rewrite index_insert by lia. rewrite decide_True by reflexivity. simpl.
    rewrite (int_add_ok b yo Hoy). simpl.
    rewrite (int_add_ok _ _ Hry). simpl.
    rewrite assign_Ok by (rewrite length_insert; lia).
    eexists; split; [reflexivity|]. rewrite list_insert_insert_eq.
    split; [rewrite length_insert; exact Hlen|].
    intros j c' Hj. destruct (decide (j = Z.to_nat i)) as [->|Hne].
    + rewrite list_lookup_insert_eq by lia. rewrite decide_True by lia.
      rewrite Hc in Hj. injection Hj as <-. reflexivity.
    + rewrite list_lookup_insert_ne by lia. rewrite (Hcs _ _ Hj).
      f_equal. destruct (decide (j < Z.to_nat i)%nat);
        [rewrite decide_True by lia | rewrite decide_False by lia]; reflexivity.
  - rewrite Hrun. f_equal.
    apply list_eq_same_length with (n := length cells);
      [apply length_map | exact Hlen |].
    intros j u v Hj Hu Hv.
    change (map (shift (b + xo) (b + yo)) cells)
      with (shift (b + xo) (b + yo) <$> cells) in Hv.
    rewrite list_lookup_fmap in Hv.
    destruct (cells !! j) as [c|] eqn:Hc; [|discriminate].
    rewrite (Hcs _ _ Hc) in Hu. rewrite decide_True in Hu by lia.
    simpl in Hv. congruence.
Qed.

Lemma setPatternVector_spec (pattern : ascii) (xo yo : Z) (g : Game) :
  (base_cells pattern g <> [] ->
     int_range (buffer g + xo) /\ int_range (buffer g + yo)) ->
  Forall (fun c => int_range (Cell_x c + (buffer g + xo)) /\
                   int_range (Cell_y c + (buffer g + yo))) (base_cells pattern g) ->
  setPatternVector pattern xo yo g =
    Ok (with_patternCells g
          (map (shift (buffer g + xo) (buffer g + yo)) (base_cells pattern g))).
Proof.
  intros Hoff Hall. unfold setPatternVector. fold (base_cells pattern g).
  rewrite (shift_loop _ _ _ _ Hoff Hall). reflexivity.
Qed.

Lemma initializePattern_spec (w h : Z) (g : Game) :
  shaped w h (grid g) ->
  fits w h 0 0 (patternCells g) ->
  exists gr', initializePattern g = Ok (with_grid g gr') /\
    shaped w h gr' /\
    forall x y, load gr' x y =
      if decide (mkCell x y ∈ patternCells g) then Ok ALIVE
      else load (grid g) x y.
Proof.
  intros Hs Hfit. set (cells := patternCells g) in *.
  destruct (for_range_rule
    (fun i gr => shaped w h gr /\
       forall x y, load gr x y =
         if decide (mkCell x y ∈ take (Z.to_nat i) cells) then Ok ALIVE
         else load (grid g) x y)
    (fun cell gr =>
      let! cur := index cells cell in
      store gr (Cell_x cur) (Cell_y cur) ALIVE)
    0 (Z.of_nat (length cells)) (grid g)) as (gr' & Hrun & Hsh & Hall).
  - lia.
  - split; [exact Hs|]. intros x y. rewrite decide_False; [reflexivity|].
    change (Z.to_nat 0) with O. rewrite take_0. apply not_elem_of_nil.
  - intros i gr Hi [Hsh Hall].
    destruct (lookup_lt_is_Some_2 cells (Z.to_nat i)) as [c Hc]; [lia|].
    pose proof (proj1 (Forall_lookup _ _) Hfit _ _ Hc) as Hin; simpl in Hin.
    rewrite !Z.add_0_r in Hin.
    rewrite (proj2 (index_Ok cells i c)) by (split; [lia | exact Hc]). simpl.
    destruct (store_spec w h gr (Cell_x c) (Cell_y c) ALIVE Hsh Hin)
      as (gr1 & Hst & Hsh1 & Hl1).
    exists gr1. split; [exact Hst|]. split; [exact Hsh1|].
    intros x y. rewrite Hl1, Hall.
    replace (Z.to_nat (i + 1)) with (S (Z.to_nat i)) by lia.
    rewrite (take_S_r _ _ _ Hc).
    destruct (decide (x = Cell_x c /\ y = Cell_y c)) as [[-> ->]|Hne].
    + rewrite decide_True; [reflexivity|].
      apply elem_of_app; right. destruct c; simpl. apply list_elem_of_singleton. reflexivity.
    + destruct (decide (mkCell x y ∈ take (Z.to_nat i) cells)) as [Hm|Hm].
      * rewrite decide_True; [reflexivity | apply elem_of_app; left; exact Hm].
      * rewrite decide_False; [reflexivity|].
        intros [Hm'|Hm']%elem_of_app; [contradiction|].
        apply list_elem_of_singleton in Hm'. subst c. simpl in Hne. tauto.
  - exists gr'. unfold initializePattern. fold cells. rewrite Hrun. simpl.
    split; [reflexivity|]. split; [exact Hsh|].
    intros x y. rewrite Hall. rewrite Nat2Z.id, firstn_all. reflexivity.
Qed.

Lemma catalog_bounds (pattern : ascii) (base : list Cell) :
  catalog pattern = Some base ->
  Forall (fun c => 0 <= Cell_x c <= 35 /\ 0 <= Cell_y c <= 8) base.
Proof.
  unfold catalog. intros H.
  destruct (Ascii.eqb pattern "o"); [injection H as <- |
  destruct (Ascii.eqb pattern "g"); [injection H as <- |
  destruct (Ascii.eqb pattern "u"); [injection H as <- | discriminate]]];
  unfold oscillator, glider, glider_gun;
  repeat (constructor; [simpl; lia|]); constructor.
Qed.

Lemma base_cells_catalog (pattern : ascii) (g : Game) (base : list Cell) :
  catalog pattern = Some base -> base_cells pattern g = base.
Proof. unfold base_cells; intros ->; reflexivity. Qed.

Lemma elem_of_shift (dx dy x y : Z) (cells : list Cell) :
  mkCell x y ∈ map (shift dx dy) cells <-> mkCell (x - dx) (y - dy) ∈ cells.
Proof.
  change (map (shift dx dy) cells) with (shift dx dy <$> cells).
  rewrite list_elem_of_fmap. split.
  - intros ([cx cy] & [= -> ->] & Hc).
    now replace (cx + dx - dx) with cx by lia; replace (cy + dy - dy) with cy by lia.
  - intros Hc. exists (mkCell (x - dx) (y - dy)). split; [|exact Hc].
    unfold shift; simpl. f_equal; lia.
Qed.

Lemma fits_shift (w h dx dy : Z) (cells : list Cell) :
  fits w h dx dy cells -> fits w h 0 0 (map (shift dx dy) cells).
Proof.
  unfold fits. intros H. apply List.Forall_map.
  eapply List.Forall_impl; [|exact H].
  intros c Hc; simpl. now rewrite !Z.add_0_r.
Qed.

(** [setPatternVector] followed by [initializePattern]. *)
Lemma place_spec (w h : Z) (g : Game) (pattern : ascii) (xo yo : Z) :
  shaped w h (grid g) -> int_range w -> int_range h ->
  Forall (fun c => 0 <= Cell_x c <= INT_MAX /\ 0 <= Cell_y c <= INT_MAX)
         (base_cells pattern g) ->
  fits w h (buffer g + xo) (buffer g + yo) (base_cells pattern g) ->
  exists g1 gr',
    setPatternVector pattern xo yo g = Ok g1 /\
    g1 = with_patternCells g
           (map (shift (buffer g + xo) (buffer g + yo)) (base_cells pattern g)) /\
    initializePattern g1 = Ok (with_grid g1 gr') /\
    shaped w h gr' /\
    forall x y, load gr' x y =
      if decide (mkCell (x - (buffer g + xo)) (y - (buffer g + yo))
                   ∈ base_cells pattern g)
      then Ok ALIVE else load (grid g) x y.
Proof.
  intros Hs Hw Hh Hpos Hfit.
  set (base := base_cells pattern g) in *.
  set (dx := buffer g + xo) in *. set (dy := buffer g + yo) in *.
  assert (Hrange : Forall (fun c => int_range (Cell_x c + dx) /\
                                    int_range (Cell_y c + dy)) base).
  { unfold fits in Hfit. eapply List.Forall_impl; [|exact Hfit].
    intros c [Hx Hy]; simpl. unfold int_range, INT_MIN, INT_MAX in *. lia. }
  assert (Hoff : base <> [] -> int_range dx /\ int_range dy).
  { destruct base as [|c rest]; [congruence|]. intros _.
    apply Forall_inv in Hpos as [Hpx Hpy].
    apply Forall_inv in Hfit as [Hfx Hfy].
    unfold int_range, INT_MIN, INT_MAX in *. lia. }
  pose proof (setPatternVector_spec pattern xo yo g Hoff Hrange) as Hset.
  fold base dx dy in Hset.
  set (g1 := with_patternCells g (map (shift dx dy) base)) in *.
  destruct (initializePattern_spec w h g1) as (gr' & Hinit & Hsh & Hl).
  - exact Hs.
  - apply fits_shift; exact Hfit.
  - exists g1, gr'. split; [exact Hset|]. split; [reflexivity|].
    split; [exact Hinit|]. split; [exact Hsh|].
    intros x y. rewrite Hl. simpl.
    destruct (decide (mkCell (x - dx) (y - dy) ∈ base)) as [Hm|Hm].
    + rewrite decide_True; [reflexivity | apply elem_of_shift; exact Hm].
    + rewrite decide_False; [reflexivity | rewrite elem_of_shift; exact Hm].
Qed.

(** ** The constructor *)

Lemma new_grid_spec (junk w h : Z) :
  0 <= w -> (0 < w -> 0 <= h) ->
  exists gr, new_grid junk w h = Ok gr /\ shaped w h gr.
Proof.
  intros Hw Hh. unfold new_grid. rewrite new_array_Ok by exact Hw. simpl.
  destruct (for_range_rule
    (fun c (gr : list (list Z)) => length gr = Z.to_nat w /\
       forall i col, (i < Z.to_nat c)%nat -> gr !! i = Some col ->
         length col = Z.to_nat h)
    (fun col gr =>
      let! column := new_array h junk in
      assign gr col column)
    0 w (replicate (Z.to_nat w) [])) as (gr & Hrun & Hlen & Hall).
  - exact Hw.
  - split; [apply length_replicate | intros i col Hi; lia].
  - intros c gr Hc [Hlen Hall].
    rewrite new_array_Ok by lia. simpl. rewrite assign_Ok by lia.
    eexists; split; [reflexivity|].
    split; [rewrite length_insert; exact Hlen|].
    intros i col Hi Hcol. destruct (decide (i = Z.to_nat c)) as [->|Hne].
    + rewrite list_lookup_insert_eq in Hcol by lia. injection Hcol as <-.
      apply length_replicate.
    + rewrite list_lookup_insert_ne in Hcol by lia. apply (Hall i); [lia | exact Hcol].
  - exists gr. split; [exact Hrun|]. split; [exact Hlen|].
    apply Forall_lookup. intros i col Hcol. apply (Hall i); [|exact Hcol].
    apply lookup_lt_Some in Hcol. lia.
Qed.

Lemma Game_new_spec (junk vwidth vheight : Z) (pattern : ascii)
    (xo yo gens pause : Z) :
  let w := vwidth + 10 in
  let h := vheight + 10 in
  0 <= w -> (0 < w -> 0 <= h) -> int_range w -> int_range h ->
  fits w h (5 + xo) (5 + yo) (stamped pattern) ->
  exists g, Game_new junk vwidth vheight pattern xo yo gens pause = Ok g /\
    width g = w /\ height g = h /\ buffer g = 5 /\
    generations g = gens /\ pauseLength g = pause /\
    patternCells g = map (shift (5 + xo) (5 + yo)) (stamped pattern) /\
    shaped w h (grid g) /\
    forall x y, in_grid w h x y ->
      load (grid g) x y =
        Ok (if decide (mkCell (x - (5 + xo)) (y - (5 + yo)) ∈ stamped pattern)
            then ALIVE else DEAD).
Proof.
  intros w h Hw Hh Hrw Hrh Hfit. unfold Game_new. cbv zeta.
  change (2 * 5) with 10.
  rewrite (int_add_ok vwidth 10 Hrw), (int_add_ok vheight 10 Hrh). cbn [bind].
  fold w h.
  destruct (new_grid_spec junk w h Hw Hh) as (gr0 & -> & Hs0). cbn [bind].
  set (g0 := mkGame w h 5 gens pause gr0 []).
  destruct (clearGrid_spec g0 Hs0) as (gr1 & -> & Hs1 & Hl1). cbn [bind].
  set (g1 := with_grid g0 gr1).
  assert (Hbase : base_cells pattern g1 = stamped pattern).
  { unfold base_cells, stamped. destruct (catalog pattern); reflexivity. }
  destruct (place_spec w h g1 pattern xo yo) as (g2 & gr' & -> & -> & Hinit & Hs' & Hl').
  - exact Hs1.
  - exact Hrw.
  - exact Hrh.
  - rewrite Hbase. unfold stamped.
    destruct (catalog pattern) as [base|] eqn:Hc; [|apply Forall_nil].
    eapply List.Forall_impl; [|exact (catalog_bounds _ _ Hc)].
    intros c; simpl; unfold INT_MAX; lia.
  - rewrite Hbase. exact Hfit.
  - cbn [bind]. rewrite Hinit. eexists; split; [reflexivity|]. simpl.
    repeat (split; [reflexivity|]). split; [exact Hs'|].
    intros x y Hin. rewrite Hl'. rewrite Hbase. simpl.
    destruct (decide (mkCell (x - (5 + xo)) (y - (5 + yo)) ∈ stamped pattern));
      [reflexivity | apply Hl1; exact Hin].
Qed.

(** ** The executable checks are sound *)

Lemma shapedb_sound (w h : Z) (gr : list (list Z)) :
  shapedb w h gr = true -> shaped w h gr.
Proof.
  unfold shapedb. intros [Hl Hc]%andb_prop. split; [lia|].
  apply List.Forall_forall. intros col Hin.
  pose proof (proj1 (forallb_forall _ _) Hc col Hin) as Hcol. simpl in Hcol. lia.
Qed.

Lemma binaryb_sound (gr : list (list Z)) : binaryb gr = true -> binary gr.
Proof.
  unfold binaryb. intros Hb x y v (Hx & Hy & col & Hc & Hv)%load_Ok.
  apply list_elem_of_lookup_2, list_elem_of_In in Hc, Hv.
  pose proof (proj1 (forallb_forall _ _) Hb col Hc) as Hcol. simpl in Hcol.
  pose proof (proj1 (forallb_forall _ _) Hcol v Hv) as Hval. simpl in Hval. lia.
Qed.

Lemma all_dead_binary (w h : Z) (gr : list (list Z)) :
  shaped w h gr ->
  (forall x y, in_grid w h x y -> load gr x y = Ok DEAD) -> binary gr.
Proof.
  intros Hs Hd x y v Hv. right.
  pose proof (Hd x y (load_in_grid w h gr x y v Hs Hv)). congruence.
Qed.

(** ** Reachable states *)

Lemma new_grid_inv (junk w h : Z) (gr : list (list Z)) :
  new_grid junk w h = Ok gr -> 0 <= w /\ (0 < w -> 0 <= h).
Proof.
  unfold new_grid, new_array. case_decide as Hw; [|discriminate].
  cbn [bind]. intros Hrun. split; [exact Hw|]. intros Hpos.
  destruct (Z_le_gt_dec 0 h) as [Hh|Hh]; [exact Hh|]. exfalso.
  unfold for_range in Hrun.
  destruct (Z.to_nat (w - 0)) as [|k] eqn:Hk; [lia|].
  simpl in Hrun. rewrite decide_False in Hrun by lia. discriminate.
Qed.

Lemma Game_new_inv (junk vwidth vheight : Z) (pattern : ascii)
    (xo yo gens pause : Z) (g : Game) :
  Game_new junk vwidth vheight pattern xo yo gens pause = Ok g ->
  0 <= vwidth + 10 /\ (0 < vwidth + 10 -> 0 <= vheight + 10) /\
  int_range (vwidth + 10) /\ int_range (vheight + 10).
Proof.
  unfold Game_new. cbv zeta. change (2 * 5) with 10.
  intros (w & [-> Hrw]%int_add_Ok_inv & H)%bind_Ok.
  apply bind_Ok in H as (h & [-> Hrh]%int_add_Ok_inv & H).
  apply bind_Ok in H as (gr & [Hw Hh]%new_grid_inv & _).
  auto.
Qed.

Lemma in_window_fits (vwidth vheight xo yo : Z) (cells : list Cell) :
  in_window vwidth vheight xo yo cells ->
  fits (vwidth + 10) (vheight + 10) (5 + xo) (5 + yo) cells.
Proof.
  unfold in_window, fits. apply List.Forall_impl.
  intros c [Hx Hy]. unfold in_grid. lia.
Qed.

Lemma Game_new_invariant (junk vwidth vheight : Z) (pattern : ascii)
    (xo yo gens pause : Z) (g : Game) :
  in_window vwidth vheight xo yo (stamped pattern) ->
  Game_new junk vwidth vheight pattern xo yo gens pause = Ok g ->
  well_formed g /\ binary (grid g) /\ border_dead g.
Proof.
  intros Hwin Hnew.
  destruct (Game_new_inv _ _ _ _ _ _ _ _ _ Hnew) as (Hw & Hh & Hrw & Hrh).
  destruct (Game_new_spec junk vwidth vheight pattern xo yo gens pause
              Hw Hh Hrw Hrh (in_window_fits _ _ _ _ _ Hwin))
    as (g0 & Hg0 & Ew & Eh & _ & _ & _ & _ & Hs & Hl).
  rewrite Hnew in Hg0. injection Hg0 as <-.
  split; [|split].
  - unfold well_formed. rewrite Ew, Eh. auto.
  - intros x y v Hv.
    rewrite (Hl x y (load_in_grid _ _ _ _ _ _ Hs Hv)) in Hv. injection Hv as <-.
    case_decide; [left | right]; reflexivity.
  - intros x y [Hin Hb]. rewrite Ew, Eh in Hin, Hb. rewrite (Hl x y Hin).
    rewrite decide_False; [reflexivity|]. intros Hm.
    pose proof (proj1 (List.Forall_forall _ _) Hwin _
                  (proj1 (list_elem_of_In _ _) Hm)) as [Hx Hy].
    simpl in Hx, Hy. destruct Hin. lia.
Qed.

Lemma tick_invariant (junk : Z) (g g' : Game) :
  well_formed g -> binary (grid g) -> border_dead g ->
  tick junk g = Ok g' ->
  well_formed g' /\ binary (grid g') /\ border_dead g'.
Proof.
  intros Hwf Hb Hd Ht.
  destruct (tick_spec junk g Hwf Hb) as (gr' & Ht' & Hs' & Hl').
  rewrite Ht in Ht'. injection Ht' as ->.
  split; [|split].
  - destruct Hwf as (_ & Hw & Hh). split; [exact Hs'|]. simpl. auto.
  - simpl. apply (tick_binary junk g gr' Hwf Hb Ht).
  - intros x y Hbd. simpl in *. rewrite Hl'.
    rewrite decide_False; [apply Hd; exact Hbd|].
    destruct Hbd as [_ Hedge]. unfold interior. lia.
Qed.

Lemma reachable_invariant (junk : Z) (g : Game) :
  reachable junk g -> well_formed g /\ binary (grid g) /\ border_dead g.
Proof.
  induction 1 as [vwidth vheight pattern xo yo gens pause g Hwin Hnew
                 | g g' Hreach (Hwf & Hb & Hd) Ht].
  - exact (Game_new_invariant _ _ _ _ _ _ _ _ _ Hwin Hnew).
  - exact (tick_invariant junk g g' Hwf Hb Hd Ht).
Qed.

(** ** Keys outside the catalog, and sizes [new] refuses *)

Lemma catalog_None (pattern : ascii) :
  catalog pattern = None <->
  pattern <> "o"%char /\ pattern <> "g"%char /\ pattern <> "u"%char.
Proof.
  unfold catalog.
  destruct (Ascii.eqb_spec pattern "o"); [split; [discriminate | tauto]|].
  destruct (Ascii.eqb_spec pattern "g"); [split; [discriminate | tauto]|].
  destruct (Ascii.eqb_spec pattern "u"); [split; [discriminate | tauto]|].
  tauto.
Qed.

Lemma with_patternCells_id (g : Game) : with_patternCells g (patternCells g) = g.
Proof. destruct g; reflexivity. Qed.

Lemma with_grid_id (g : Game) : with_grid g (grid g) = g.
Proof. destruct g; reflexivity. Qed.

Lemma for_range_first_fails {T : Type} (body : Z -> T -> outcome T)
    (lo hi : Z) (s : T) (f : fault) :
  lo < hi -> body lo s = Fail f -> for_range lo hi body s = Fail f.
Proof.
  intros Hlt Hf. unfold for_range.
  destruct (Z.to_nat (hi - lo)) as [|k] eqn:Hk; [lia|].
  simpl. rewrite Hf. reflexivity.
Qed.

Lemma new_grid_refused (junk w h : Z) :
  w < 0 \/ (0 < w /\ h < 0) -> new_grid junk w h = Fail BadArrayNewLength.
Proof.
  unfold new_grid, new_array. intros [Hw | [Hw Hh]].
  - rewrite decide_False by lia. reflexivity.
  - rewrite decide_True by lia. cbn [bind].
    apply for_range_first_fails; [exact Hw|].
    rewrite decide_False by lia. reflexivity.
Qed.

(** ** Printing *)

Lemma for_count_app {A : Type} (piece : Z -> list A)
    (body : Z -> list A -> outcome (list A)) (n : nat) (lo : Z) (out : list A) :
  (forall i o, lo <= i < lo + Z.of_nat n -> body i o = Ok (o ++ piece i)) ->
  for_count n lo body out =
    Ok (out ++ concat (map piece (seqZ lo (Z.of_nat n)))).
Proof.
  revert lo out. induction n as [|n IH]; intros lo out Hbody.
  - simpl. now rewrite app_nil_r.
  - rewrite seqZ_cons by lia. cbn [for_count map concat].
    rewrite Hbody by lia. cbn [bind].
    rewrite IH by (intros i o Hi; apply Hbody; lia).
    replace (Z.pred (Z.of_nat (S n))) with (Z.of_nat n) by lia.
    replace (Z.succ lo) with (lo + 1) by lia.
    now rewrite <- app_assoc.
Qed.

Lemma for_range_app {A : Type} (piece : Z -> list A)
    (body : Z -> list A -> outcome (list A)) (lo hi : Z) (out : list A) :
  (forall i o, lo <= i < hi -> body i o = Ok (o ++ piece i)) ->
  for_range lo hi body out =
    Ok (out ++ concat (map piece (seqZ lo (hi - lo)))).
Proof.
  intros Hbody. unfold for_range.
  rewrite (for_count_app piece) by (intros i o Hi; apply Hbody; lia).
  destruct (Z_le_gt_dec lo hi).
  - now rewrite Z2Nat.id by lia.
  - replace (Z.to_nat (hi - lo)) with O by lia.
    rewrite (seqZ_nil lo (hi - lo)) by lia. reflexivity.
Qed.

Lemma concat_map_singleton {A B : Type} (f : A -> B) (l : list A) :
  concat (map (fun a => [f a]) l) = map f l.
Proof. induction l as [|a l IH]; simpl; [reflexivity | now rewrite IH]. Qed.

Lemma print_rect (w h : Z) (gr : list (list Z)) (x0 x1 y0 y1 : Z)
    (out : list ascii) :
  shaped w h gr -> 0 <= x0 -> x1 <= w -> 0 <= y0 -> y1 <= h ->
  for_range y0 y1 (fun row out =>
    let! out :=
      for_range x0 x1 (fun col out =>
        let! v := load gr col row in
        Ok (out ++ [glyph v])) out in
    Ok (out ++ [newline])) out =
  Ok (out ++ lines (picture gr x0 y0 (x1 - x0) (y1 - y0))).
Proof.
  intros Hs Hx0 Hx1 Hy0 Hy1. unfold lines, picture.
  rewrite map_map.
  apply (for_range_app (fun row => row_text gr x0 (x1 - x0) row ++ [newline])).
  intros row o Hrow.
  rewrite (for_range_app (fun col => [glyph (cell gr col row)])).
  - cbn [bind]. rewrite concat_map_singleton. unfold row_text.
    now rewrite <- app_assoc.
  - intros col o' Hcol.
    rewrite (shaped_load_cell w h gr col row Hs) by (unfold in_grid; lia).
    reflexivity.
Qed.

Lemma picture_length (gr : list (list Z)) (x0 y0 wlen hlen : Z) :
  length (picture gr x0 y0 wlen hlen) = Z.to_nat hlen.
Proof. unfold picture. now rewrite length_map, length_seqZ. Qed.

Lemma picture_row (gr : list (list Z)) (x0 y0 wlen hlen : Z) (i : nat)
    (r : list ascii) :
  picture gr x0 y0 wlen hlen !! i = Some r ->
  length r = Z.to_nat wlen /\
  forall j, (j < Z.to_nat wlen)%nat ->
    r !! j = Some (glyph (cell gr (x0 + Z.of_nat j) (y0 + Z.of_nat i))).
Proof.
  unfold picture.
  change (map (row_text gr x0 wlen) (seqZ y0 hlen))
    with (row_text gr x0 wlen <$> seqZ y0 hlen).
  rewrite list_lookup_fmap. intros Hr.
  destruct (seqZ y0 hlen !! i) as [row|] eqn:Hrow; [|discriminate].
  apply lookup_seqZ in Hrow as [-> Hi]. injection Hr as <-.
  unfold row_text. split; [now rewrite length_map, length_seqZ|].
  intros j Hj.
  change (map ?f (seqZ x0 wlen)) with (f <$> seqZ x0 wlen).
  rewrite list_lookup_fmap, lookup_seqZ_lt by lia. reflexivity.
Qed.

(** ** One tick, cell by cell *)

Lemma tick_pointwise (junk : Z) (g : Game) (f f' : Z -> Z -> Z) :
  well_formed g ->
  shows (width g) (height g) (grid g) f ->
  (forall px py, in_grid (width g) (height g) px py ->
     f px py = ALIVE \/ f px py = DEAD) ->
  (forall px py, interior (width g) (height g) px py ->
     nextState (f px py)
       (f (px - 1) (py - 1) + f (px - 1) py + f (px - 1) (py + 1) +
        f px (py - 1) + f px (py + 1) +
        f (px + 1) (py - 1) + f (px + 1) py + f (px + 1) (py + 1)) = f' px py) ->
  (forall px py, in_grid (width g) (height g) px py ->
     ~ interior (width g) (height g) px py -> f px py = f' px py) ->
  exists gr', tick junk g = Ok (with_grid g gr') /\
    shaped (width g) (height g) gr' /\
    shows (width g) (height g) gr' f'.
Proof.
  intros Hwf Hshow Hbin Hstep Hedge.
  assert (Hb : binary (grid g)).
  { intros px py v Hv. destruct Hwf as (Hs & _).
    pose proof (load_in_grid _ _ _ _ _ _ Hs Hv) as Hin.
    rewrite (Hshow px py Hin) in Hv. injection Hv as <-. apply Hbin; exact Hin. }
  destruct (tick_spec junk g Hwf Hb) as (gr' & Ht & Hs' & Hl').
  exists gr'. split; [exact Ht|]. split; [exact Hs'|].
  destruct Hwf as (Hs & _).
  assert (Hcell : forall px py, in_grid (width g) (height g) px py ->
            cell (grid g) px py = f px py).
  { intros px py Hin. apply load_cell, Hshow; exact Hin. }
  intros px py Hin. rewrite Hl'. case_decide as Hi.
  - f_equal. rewrite <- (Hstep px py Hi).
    pose proof (totalLiveNeighbors_spec _ _ _ px py Hs Hb Hi) as Hsum.
    unfold neighbours. rewrite Hsum.
    destruct Hi as [Hx Hy].
    rewrite !Hcell by (unfold in_grid; lia). reflexivity.
  - rewrite (Hshow px py Hin). f_equal. apply Hedge; assumption.
Qed.

Ltac decide_cells :=
  repeat (case_decide; try (exfalso; lia)).

Lemma vertical_to_horizontal (w h x y px py : Z) :
  2 <= x <= w - 3 -> 1 <= y <= h - 4 -> interior w h px py ->
  nextState (vertical_blinker x y px py)
    (vertical_blinker x y (px - 1) (py - 1) + vertical_blinker x y (px - 1) py +
     vertical_blinker x y (px - 1) (py + 1) +
     vertical_blinker x y px (py - 1) + vertical_blinker x y px (py + 1) +
     vertical_blinker x y (px + 1) (py - 1) + vertical_blinker x y (px + 1) py +
     vertical_blinker x y (px + 1) (py + 1)) = horizontal_blinker x y px py.
Proof.
  intros Hx Hy [Hpx Hpy]. unfold vertical_blinker, horizontal_blinker.
  decide_cells; reflexivity.
Qed.

Lemma horizontal_to_vertical (w h x y px py : Z) :
  2 <= x <= w - 3 -> 1 <= y <= h - 4 -> interior w h px py ->
  nextState (horizontal_blinker x y px py)
    (horizontal_blinker x y (px - 1) (py - 1) + horizontal_blinker x y (px - 1) py +
     horizontal_blinker x y (px - 1) (py + 1) +
     horizontal_blinker x y px (py - 1) + horizontal_blinker x y px (py + 1) +
     horizontal_blinker x y (px + 1) (py - 1) + horizontal_blinker x y (px + 1) py +
     horizontal_blinker x y (px + 1) (py + 1)) = vertical_blinker x y px py.
Proof.
  intros Hx Hy [Hpx Hpy]. unfold vertical_blinker, horizontal_blinker.
  decide_cells; reflexivity.
Qed.

(** ** The blinker *)

Lemma blinker_phases (junk : Z) (g : Game) (x y : Z) :
  well_formed g ->
  shows (width g) (height g) (grid g) (vertical_blinker x y) ->
  2 <= x <= width g - 3 -> 1 <= y <= height g - 4 ->
  exists gr1 gr2,
    tick junk g = Ok (with_grid g gr1) /\
    shows (width g) (height g) gr1 (horizontal_blinker x y) /\
    tick junk (with_grid g gr1) = Ok (with_grid (with_grid g gr1) gr2) /\
    gr2 = grid g.
Proof.
  intros Hwf Hshow Hx Hy.
  destruct (tick_pointwise junk g (vertical_blinker x y) (horizontal_blinker x y)
              Hwf Hshow) as (gr1 & Ht1 & Hs1 & Hshow1).
  { intros px py _. unfold vertical_blinker. case_decide; auto. }
  { intros px py Hi. apply (vertical_to_horizontal (width g) (height g)); assumption. }
  { intros px py [Hpx Hpy] Hni. unfold vertical_blinker, horizontal_blinker, interior in *.
    decide_cells; reflexivity. }
  set (g1 := with_grid g gr1) in *.
  assert (Hwf1 : well_formed g1).
  { destruct Hwf as (_ & Hw & Hh). split; [exact Hs1 | simpl; auto]. }
  destruct (tick_pointwise junk g1 (horizontal_blinker x y) (vertical_blinker x y)
              Hwf1 Hshow1) as (gr2 & Ht2 & Hs2 & Hshow2).
  { intros px py _. unfold horizontal_blinker. case_decide; auto. }
  { intros px py Hi. apply (horizontal_to_vertical (width g) (height g)); assumption. }
  { intros px py [Hpx Hpy] Hni. simpl in *.
    unfold vertical_blinker, horizontal_blinker, interior in *.
    decide_cells; reflexivity. }
  exists gr1, gr2. split; [exact Ht1|]. split; [exact Hshow1|]. split; [exact Ht2|].
  apply (grid_ext (width g) (height g)); [exact Hs2 | apply Hwf |].
  intros px py Hin. rewrite (Hshow2 px py Hin). symmetry. apply Hshow; exact Hin.
Qed.

Lemma phases_differ (w h x y : Z) (gr gr1 : list (list Z)) :
  shows w h gr (vertical_blinker x y) ->
  shows w h gr1 (horizontal_blinker x y) ->
  2 <= x <= w - 3 -> 1 <= y <= h - 4 ->
  gr1 <> gr.
Proof.
  intros Hshow Hshow1 Hx Hy Heq.
  assert (Hin : in_grid w h (x - 1) (y + 1)) by (unfold in_grid; lia).
  pose proof (Hshow1 _ _ Hin) as H1. pose proof (Hshow _ _ Hin) as H0.
  rewrite Heq, H0 in H1. unfold vertical_blinker, horizontal_blinker in H1.
  rewrite decide_False in H1 by lia. rewrite decide_True in H1 by lia.
  discriminate.
Qed.

Lemma oscillator_member (x y : Z) :
  mkCell x y ∈ oscillator <-> x = 1 /\ 0 <= y <= 2.
Proof.
  unfold oscillator. rewrite !elem_of_cons, elem_of_nil. split.
  - intros [[= -> ->]|[[= -> ->]|[[= -> ->]|[]]]]; lia.
  - intros [-> Hy]. assert (Hc : y = 0 \/ y = 1 \/ y = 2) by lia.
    destruct Hc as [-> | [-> | ->]]; auto.
Qed.

(** Every game the constructor makes of the oscillator placed inside the
    visible window is back after two ticks. *)
Lemma constructed_oscillator_period_two (junk vwidth vheight : Z)
    (xo yo gens pause : Z) (g : Game) :
  in_window vwidth vheight xo yo oscillator ->
  Game_new junk vwidth vheight "o" xo yo gens pause = Ok g ->
  exists g1 g2,
    tick junk g = Ok g1 /\ tick junk g1 = Ok g2 /\
    g2 = g /\ grid g1 <> grid g.
Proof.
  intros Hwin Hnew.
  destruct (Game_new_inv _ _ _ _ _ _ _ _ _ Hnew) as (Hw & Hh & Hrw & Hrh).
  destruct (Game_new_spec junk vwidth vheight "o" xo yo gens pause
              Hw Hh Hrw Hrh (in_window_fits _ _ _ _ _ Hwin))
    as (g0 & Hg0 & Ew & Eh & _ & _ & _ & _ & Hs & Hl).
  rewrite Hnew in Hg0. injection Hg0 as <-.
  assert (Hcells : 0 <= xo + 1 < vwidth /\ 0 <= yo /\ yo + 2 < vheight).
  { unfold in_window, oscillator in Hwin.
    apply Forall_cons_1 in Hwin as [[Hx0 Hy0] Hwin].
    apply Forall_cons_1 in Hwin as [_ Hwin].
    apply Forall_cons_1 in Hwin as [[_ Hy2] _].
    simpl in *. lia. }
  assert (Hshow : shows (width g) (height g) (grid g)
                    (vertical_blinker (5 + xo + 1) (5 + yo))).
  { rewrite Ew, Eh. intros px py Hin. rewrite (Hl px py Hin). f_equal.
    unfold vertical_blinker, stamped. simpl.
    destruct (decide (px = 5 + xo + 1 /\ 5 + yo <= py <= 5 + yo + 2)) as [Hv|Hv].
    - rewrite decide_True; [reflexivity | apply oscillator_member; lia].
    - rewrite decide_False; [reflexivity | rewrite oscillator_member; lia]. }
  destruct (blinker_phases junk g (5 + xo + 1) (5 + yo))
    as (gr1 & gr2 & Ht1 & Hshow1 & Ht2 & ->).
  - unfold well_formed. rewrite Ew, Eh. auto.
  - exact Hshow.
  - rewrite Ew. lia.
  - rewrite Eh. lia.
  - eexists _, _. split; [exact Ht1|]. split; [exact Ht2|]. split.
    + destruct g; reflexivity.
    + apply (phases_differ (width g) (height g) (5 + xo + 1) (5 + yo));
        [assumption.. | rewrite Ew; lia | rewrite Eh; lia].
Qed.

(** ** The small world *)

Lemma small_world_well_formed : well_formed small_world.
Proof.
  split; [apply shapedb_sound; reflexivity|]. simpl; lia.
Qed.

Lemma small_world_binary : binary (grid small_world).
Proof. apply binaryb_sound; reflexivity. Qed.

Lemma small_world_shows_blinker :
  shows 5 5 (grid small_world) (vertical_blinker 2 1).
Proof.
  intros px py [Hx Hy].
  assert (Ex : exists n, px = Z.of_nat n /\ (n < 5)%nat)
    by (exists (Z.to_nat px); lia).
  assert (Ey : exists n, py = Z.of_nat n /\ (n < 5)%nat)
    by (exists (Z.to_nat py); lia).
  destruct Ex as (n & -> & Hn), Ey as (m & -> & Hm).
  do 5 (destruct n as [|n]; [do 5 (destruct m as [|m]; [reflexivity|]); lia|]).
  lia.
Qed.

(** ** More on loops: composition, failure, partial correctness *)

Lemma for_count_split {T : Type} (body : Z -> T -> outcome T)
    (a b : nat) (lo : Z) (s : T) :
  for_count (a + b) lo body s =
    let! t := for_count a lo body s in for_count b (lo + Z.of_nat a) body t.
Proof.
  revert lo s. induction a as [|a IH]; intros lo s.
  - cbn [Nat.add for_count bind]. change (Z.of_nat 0) with 0.
    now rewrite Z.add_0_r.
  - cbn [Nat.add for_count]. destruct (body lo s) as [t|f]; [|reflexivity].
    cbn [bind]. rewrite IH. now replace (lo + 1 + Z.of_nat a) with (lo + Z.of_nat (S a)) by lia.
Qed.

(** The loop fails at its first failing iteration. *)
Lemma for_range_fails {T : Type} (I : Z -> T -> Prop)
    (body : Z -> T -> outcome T) (lo hi k : Z) (s : T) (f : fault) :
  lo <= k < hi ->
  I lo s ->
  (forall i t, lo <= i < k -> I i t ->
     exists t', body i t = Ok t' /\ I (i + 1) t') ->
  (forall t, I k t -> body k t = Fail f) ->
  for_range lo hi body s = Fail f.
Proof.
  intros Hk H0 Hstep Hfail. unfold for_range.
  replace (Z.to_nat (hi - lo)) with (Z.to_nat (k - lo) + S (Z.to_nat (hi - k - 1)))%nat
    by lia.
  rewrite for_count_split.
  destruct (for_count_rule I body (Z.to_nat (k - lo)) lo s H0) as (t & -> & Ht).
  - intros i u Hi; apply Hstep; lia.
  - cbn [bind for_count].
    replace (lo + Z.of_nat (Z.to_nat (k - lo))) with k in * by lia.
    now rewrite (Hfail t Ht).
Qed.

(** What a loop that ended normally has established. *)
Lemma for_count_partial {T : Type} (I : Z -> T -> Prop)
    (body : Z -> T -> outcome T) (n : nat) (lo : Z) (s s' : T) :
  I lo s ->
  (forall i t t', lo <= i < lo + Z.of_nat n -> I i t -> body i t = Ok t' ->
     I (i + 1) t') ->
  for_count n lo body s = Ok s' ->
  I (lo + Z.of_nat n) s'.
Proof.
  revert lo s. induction n as [|n IH]; intros lo s H0 Hstep Hrun.
  - simpl in Hrun. injection Hrun as <-. now replace (lo + Z.of_nat 0) with lo by lia.
  - cbn [for_count] in Hrun. apply bind_Ok in Hrun as (t & Ht & Hrun).
    replace (lo + Z.of_nat (S n)) with (lo + 1 + Z.of_nat n) by lia.
    apply (IH (lo + 1) t); [| |exact Hrun].
    + apply (Hstep lo s t); [lia | exact H0 | exact Ht].
    + intros i u u' Hi; apply Hstep; lia.
Qed.

Lemma for_range_partial {T : Type} (I : Z -> T -> Prop)
    (body : Z -> T -> outcome T) (lo hi : Z) (s s' : T) :
  lo <= hi ->
  I lo s ->
  (forall i t t', lo <= i < hi -> I i t -> body i t = Ok t' -> I (i + 1) t') ->
  for_range lo hi body s = Ok s' ->
  I hi s'.
Proof.
  intros Hle H0 Hstep Hrun. unfold for_range in Hrun.
  replace hi with (lo + Z.of_nat (Z.to_nat (hi - lo))) by lia.
  apply (for_count_partial I body _ lo s s' H0); [|exact Hrun].
  intros i t t' Hi; apply Hstep; lia.
Qed.

(** ** Accesses outside a grid *)

Lemma index_outside {A : Type} (a : list A) (i : Z) :
  ~ 0 <= i < Z.of_nat (length a) -> index a i = Fail OutOfBounds.
Proof.
  intros Hi. unfold index. case_decide as H0; [|reflexivity].
  rewrite lookup_ge_None_2 by lia. reflexivity.
Qed.

Lemma store_outside (w h : Z) (gr : list (list Z)) (x y v : Z) :
  shaped w h gr -> ~ in_grid w h x y -> store gr x y v = Fail OutOfBounds.
Proof.
  intros [Hlen Hcols] Hout. unfold store.
  destruct (decide (0 <= x < w)) as [Hx|Hx].
  - destruct (lookup_lt_is_Some_2 gr (Z.to_nat x)) as [col Hc]; [lia|].
    pose proof (proj1 (Forall_lookup _ _) Hcols _ _ Hc) as Hl; simpl in Hl.
    rewrite (proj2 (index_Ok gr x col)) by (split; [lia | exact Hc]).
    cbn [bind]. unfold assign. rewrite index_outside; [reflexivity|].
    unfold in_grid in Hout. lia.
  - rewrite index_outside by lia. reflexivity.
Qed.

Lemma store_Ok_in_grid (w h : Z) (gr gr' : list (list Z)) (x y v : Z) :
  shaped w h gr -> store gr x y v = Ok gr' -> in_grid w h x y.
Proof.
  intros Hs Hst. destruct (decide (in_grid w h x y)) as [Hin|Hout]; [exact Hin|].
  rewrite (store_outside w h gr x y v Hs Hout) in Hst. discriminate.
Qed.

Lemma totalLiveNeighbors_Ok_interior (w h : Z) (gr : list (list Z)) (x y n : Z) :
  shaped w h gr -> totalLiveNeighbors gr x y = Ok n -> interior w h x y.
Proof.
  intros Hs H. unfold totalLiveNeighbors in H.
  apply bind_Ok in H as (a & Ha & H).
  repeat (apply bind_Ok in H as (? & ? & H)).
  match goal with
  | Hk : load gr (x + 1) (y + 1) = Ok _ |- _ =>
      pose proof (load_in_grid w h gr _ _ _ Hs Hk) as [Hx1 Hy1]
  end.
  pose proof (load_in_grid w h gr _ _ _ Hs Ha) as [Hx0 Hy0].
  unfold interior. lia.
Qed.

(** ** The scratch grid of [tick], whatever the sizes *)

Lemma scratch_loop_refused (junk w h : Z) (rows : list (list Z)) :
  0 < w -> h < 0 ->
  for_range 0 w (fun col nextGrid =>
      let! column := new_array h junk in
      let! nextGrid := assign nextGrid col column in
      for_range 0 h (fun row nextGrid => store nextGrid col row DEAD) nextGrid)
    rows = Fail BadArrayNewLength.
Proof.
  intros Hw Hh. apply for_range_first_fails; [exact Hw|].
  unfold new_array. rewrite decide_False by lia. reflexivity.
Qed.

Lemma tick_any_heap (j1 j2 : Z) (g : Game) : tick j1 g = tick j2 g.
Proof.
  unfold tick. unfold new_array at 1 3.
  destruct (decide (0 <= width g)) as [Hw|Hw]; [|reflexivity].
  cbn [bind].
  destruct (decide (0 < width g /\ height g < 0)) as [[Hw' Hh]|Hok].
  - now rewrite !scratch_loop_refused by assumption.
  - now rewrite !scratch_grid by lia.
Qed.

Lemma clearGrid_replicate (g : Game) :
  shaped (width g) (height g) (grid g) ->
  clearGrid g =
    Ok (with_grid g (replicate (Z.to_nat (width g))
                               (replicate (Z.to_nat (height g)) DEAD))).
Proof.
  intros Hs. destruct (clearGrid_spec g Hs) as (gr' & -> & Hs' & Hl').
  do 2 f_equal. apply (grid_ext (width g) (height g)).
  - exact Hs'.
  - apply shaped_replicate.
  - intros x y Hin. rewrite (Hl' x y Hin). symmetry. now apply load_replicate.
Qed.

Lemma Game_new_any_heap (j1 j2 vwidth vheight : Z) (pattern : ascii)
    (xo yo gens pause : Z) :
  Game_new j1 vwidth vheight pattern xo yo gens pause =
  Game_new j2 vwidth vheight pattern xo yo gens pause.
Proof.
  unfold Game_new. cbv zeta.
  destruct (int_add vwidth (2 * 5)) as [w|f]; [|reflexivity]. cbn [bind].
  destruct (int_add vheight (2 * 5)) as [h|f]; [|reflexivity]. cbn [bind].
  destruct (decide (w < 0 \/ (0 < w /\ h < 0))) as [Hbad|Hok].
  - now rewrite !new_grid_refused by assumption.
  - destruct (new_grid_spec j1 w h) as (gr1 & -> & Hs1); [lia | lia |].
    destruct (new_grid_spec j2 w h) as (gr2 & -> & Hs2); [lia | lia |].
    cbn [bind].
    rewrite (clearGrid_replicate (mkGame w h 5 gens pause gr1 [])) by exact Hs1.
    rewrite (clearGrid_replicate (mkGame w h 5 gens pause gr2 [])) by exact Hs2.
    reflexivity.
Qed.

(** ** [tick] on a grid without interior *)

Lemma tick_without_interior (junk : Z) (g : Game) :
  well_formed g -> width g <= 2 \/ height g <= 2 -> tick junk g = Ok g.
Proof.
  intros (Hs & Hw & Hh) Hsmall.
  set (w := width g) in *. set (h := height g) in *.
  destruct (scan_rule w h 1 (w - 1) 1 (h - 1)
              (fun x y ng => determineFate g (mkCell x y) ng) (fun _ _ => DEAD)
              (replicate (Z.to_nat w) (replicate (Z.to_nat h) DEAD)))
    as (next & Hnext & Hsn & Hln);
    [apply shaped_replicate | lia | lia | lia | lia | intros; lia |].
  destruct (scan_rule w h 1 (w - 1) 1 (h - 1)
              (fun x y gr => let! v := load next x y in store gr x y v)
              (fun _ _ => DEAD) (grid g))
    as (gr' & Hrun & Hsg & Hlg);
    [exact Hs | lia | lia | lia | lia | intros; lia |].
  unfold tick. fold w h. rewrite new_array_Ok by exact Hw. cbn [bind].
  rewrite scratch_grid by assumption. cbn [bind].
  cbv beta in Hnext. rewrite Hnext. cbn [bind].
  cbv beta in Hrun. rewrite Hrun. cbn [bind].
  assert (Hgr : gr' = grid g).
  { apply (grid_ext w h); [exact Hsg | exact Hs |].
    intros x y Hin. rewrite Hlg. rewrite decide_False by lia. reflexivity. }
  rewrite Hgr. now rewrite with_grid_id.
Qed.

(** ** [initializePattern] and [setPatternVector]: when they fail, and what
    they did when they did not *)

Lemma first_counterexample {A : Type} (P : A -> Prop)
    `{forall a, Decision (P a)} (l : list A) :
  ~ Forall P l ->
  exists k c, l !! k = Some c /\ ~ P c /\
    forall j c', (j < k)%nat -> l !! j = Some c' -> P c'.
Proof.
  induction l as [|a l IH]; intros Hnot.
  - exfalso. apply Hnot. constructor.
  - destruct (decide (P a)) as [Ha|Ha].
    + destruct IH as (k & c & Hk & Hc & Hbefore).
      { intros Hl. apply Hnot. constructor; assumption. }
      exists (S k), c. split; [exact Hk|]. split; [exact Hc|].
      intros [|j] c' Hj Hc'; [injection Hc' as <-; exact Ha|].
      apply (Hbefore j); [lia | exact Hc'].
    + exists O, a. split; [reflexivity|]. split; [exact Ha|]. intros j c' Hj; lia.
Qed.

Lemma initializePattern_outside (w h : Z) (g : Game) :
  shaped w h (grid g) ->
  ~ fits w h 0 0 (patternCells g) ->
  initializePattern g = Fail OutOfBounds.
Proof.
  intros Hs Hnot. unfold fits in Hnot.
  destruct (first_counterexample _ _ Hnot) as (k & c & Hk & Hc & Hbefore).
  pose proof (lookup_lt_Some _ _ _ Hk) as Hlt.
  unfold initializePattern.
  rewrite (for_range_fails (fun _ gr => shaped w h gr) _ 0 _ (Z.of_nat k)
             (grid g) OutOfBounds); [reflexivity | lia | exact Hs | |].
  - intros i gr Hi Hsh.
    destruct (lookup_lt_is_Some_2 (patternCells g) (Z.to_nat i)) as [c' Hc']; [lia|].
    rewrite (proj2 (index_Ok _ i c')) by (split; [lia | exact Hc']). cbn [bind].
    pose proof (Hbefore (Z.to_nat i) c' ltac:(lia) Hc') as Hin. simpl in Hin.
    rewrite !Z.add_0_r in Hin.
    destruct (store_spec w h gr _ _ ALIVE Hsh Hin) as (gr1 & Hst & Hsh1 & _).
    exists gr1. split; assumption.
  - intros gr Hsh. rewrite (index_of_nat _ _ _ Hk). cbn [bind].
    apply (store_outside w h); [exact Hsh|]. rewrite !Z.add_0_r in Hc. exact Hc.
Qed.

Lemma setPatternVector_Ok_inv (pattern : ascii) (xo yo : Z) (g g' : Game) :
  setPatternVector pattern xo yo g = Ok g' ->
  g' = with_patternCells g
         (map (shift (buffer g + xo) (buffer g + yo)) (base_cells pattern g)).
Proof.
  unfold setPatternVector. fold (base_cells pattern g).
  set (cells := base_cells pattern g). set (b := buffer g).
  intros (cs & Hrun & [= <-])%bind_Ok. f_equal.
  pose (I := fun i (cs : list Cell) => length cs = length cells /\
       forall j c, cells !! j = Some c ->
         cs !! j = Some (if decide (j < Z.to_nat i)%nat
                         then shift (b + xo) (b + yo) c else c)).
  assert (Hinv : I (Z.of_nat (length cells)) cs).
  { revert Hrun. apply (for_range_partial I); [lia | |].
    { split; [reflexivity|]. intros j c Hj. rewrite decide_False by lia. exact Hj. }
    intros i t t' Hi [Hlen Hcs] Hbody.
    apply bind_Ok in Hbody as (cur & Hcur & Hbody).
    apply bind_Ok in Hbody as (dx & [-> _]%int_add_Ok_inv & Hbody).
    apply bind_Ok in Hbody as (x' & [-> _]%int_add_Ok_inv & Hbody).
    apply bind_Ok in Hbody as (t1 & [_ ->]%assign_Ok_inv & Hbody).
    apply bind_Ok in Hbody as (cur2 & Hcur2 & Hbody).
    apply bind_Ok in Hbody as (dy & [-> _]%int_add_Ok_inv & Hbody).
    apply bind_Ok in Hbody as (y' & [-> _]%int_add_Ok_inv & Hbody).
    apply assign_Ok_inv in Hbody as [_ ->].
    rewrite index_insert in Hcur2 by lia. rewrite decide_True in Hcur2 by reflexivity.
    injection Hcur2 as <-. simpl.
    apply index_Ok in Hcur as [_ Hcur].
    rewrite list_insert_insert_eq.
    split; [rewrite length_insert; exact Hlen|].
    intros j c Hj. destruct (decide (j = Z.to_nat i)) as [->|Hne].
    + rewrite list_lookup_insert_eq by lia. rewrite decide_True by lia.
      rewrite (Hcs _ _ Hj) in Hcur. rewrite decide_False in Hcur by lia.
      injection Hcur as <-. reflexivity.
    + rewrite list_lookup_insert_ne by lia. rewrite (Hcs _ _ Hj).
      f_equal. destruct (decide (j < Z.to_nat i)%nat);
        [rewrite decide_True by lia | rewrite decide_False by lia]; reflexivity. }
  destruct Hinv as [Hlen Hcs].
  apply list_eq_same_length with (n := length cells);
    [apply length_map | exact Hlen |].
  intros j u v Hj Hu Hv.
  change (map (shift (b + xo) (b + yo)) cells)
    with (shift (b + xo) (b + yo) <$> cells) in Hv.
  rewrite list_lookup_fmap in Hv.
  destruct (cells !! j) as [c|] eqn:Hc; [|discriminate].
  rewrite (Hcs _ _ Hc) in Hu. rewrite decide_True in Hu by lia.
  simpl in Hv. congruence.
Qed.

Lemma fits_unshift (w h dx dy : Z) (cells : list Cell) :
  fits w h 0 0 (map (shift dx dy) cells) -> fits w h dx dy cells.
Proof.
  unfold fits. intros H. apply List.Forall_forall. intros c Hc.
  pose proof (proj1 (List.Forall_forall _ _) H (shift dx dy c)
                (List.in_map _ _ _ Hc)) as Hin.
  simpl in Hin. now rewrite !Z.add_0_r in Hin.
Qed.

Lemma Game_new_Ok_fits (junk vwidth vheight : Z) (pattern : ascii)
    (xo yo gens pause : Z) (g : Game) :
  Game_new junk vwidth vheight pattern xo yo gens pause = Ok g ->
  fits (vwidth + 10) (vheight + 10) (5 + xo) (5 + yo) (stamped pattern).
Proof.
  intros Hnew.
  destruct (Game_new_inv _ _ _ _ _ _ _ _ _ Hnew) as (Hw & Hh & Hrw & Hrh).
  revert Hnew. unfold Game_new. cbv zeta. change (2 * 5) with 10.
  rewrite (int_add_ok vwidth 10 Hrw), (int_add_ok vheight 10 Hrh). cbn [bind].
  destruct (new_grid_spec junk _ _ Hw Hh) as (gr0 & -> & Hs0). cbn [bind].
  set (g0 := mkGame (vwidth + 10) (vheight + 10) 5 gens pause gr0 []).
  destruct (clearGrid_spec g0 Hs0) as (gr1 & -> & Hs1 & _). cbn [bind].
  intros (g2 & Hset & Hinit)%bind_Ok.
  apply setPatternVector_Ok_inv in Hset. subst g2.
  assert (Hbase : base_cells pattern (with_grid g0 gr1) = stamped pattern).
  { unfold base_cells, stamped. destruct (catalog pattern); reflexivity. }
  rewrite Hbase in Hinit. simpl in Hinit.
  apply fits_unshift.
  destruct (decide (fits (vwidth + 10) (vheight + 10) 0 0
              (map (shift (5 + xo) (5 + yo)) (stamped pattern)))) as [Hfit|Hnot];
    [exact Hfit|].
  rewrite (initializePattern_outside (vwidth + 10) (vheight + 10)) in Hinit;
    [discriminate | exact Hs1 | exact Hnot].
Qed.

(** ** Patterns on the unbounded plane and on a grid *)

Lemma pattern_at_rel (P : list Cell) (x y px py : Z) :
  pattern_at P x y px py = pattern_at P 0 0 (px - x) (py - y).
Proof. unfold pattern_at. now rewrite !Z.sub_0_r. Qed.

Lemma pattern_at_binary (P : list Cell) (x y px py : Z) :
  pattern_at P x y px py = ALIVE \/ pattern_at P x y px py = DEAD.
Proof. unfold pattern_at. case_decide; auto. Qed.

Lemma within_bounds (k : Z) (P : list Cell) (c : Cell) :
  within k P = true -> c ∈ P -> 0 <= Cell_x c <= k /\ 0 <= Cell_y c <= k.
Proof.
  unfold within. intros Hw Hc.
  pose proof (proj1 (forallb_forall _ _) Hw c (proj1 (list_elem_of_In _ _) Hc)) as H.
  simpl in H. lia.
Qed.

Lemma pattern_at_outside (k : Z) (P : list Cell) (a b : Z) :
  within k P = true -> ~ (0 <= a <= k /\ 0 <= b <= k) ->
  pattern_at P 0 0 a b = DEAD.
Proof.
  intros Hw Hout. unfold pattern_at. rewrite decide_False; [reflexivity|].
  intros Hm. apply (within_bounds k) in Hm; [|exact Hw]. simpl in Hm. lia.
Qed.

Lemma evolves_at_origin (k : Z) (P P' : list Cell) (dx dy : Z) :
  evolves k P P' = true ->
  nextState (pattern_at P 0 0 dx dy)
    (pattern_at P 0 0 (dx - 1) (dy - 1) + pattern_at P 0 0 (dx - 1) dy +
     pattern_at P 0 0 (dx - 1) (dy + 1) +
     pattern_at P 0 0 dx (dy - 1) + pattern_at P 0 0 dx (dy + 1) +
     pattern_at P 0 0 (dx + 1) (dy - 1) + pattern_at P 0 0 (dx + 1) dy +
     pattern_at P 0 0 (dx + 1) (dy + 1)) = pattern_at P' 0 0 dx dy.
Proof.
  unfold evolves. intros [[HP HP']%andb_prop Hrule]%andb_prop.
  destruct (decide (-1 <= dx <= k + 1 /\ -1 <= dy <= k + 1)) as [Hin|Hout].
  - assert (Hmem : forall d, -1 <= d <= k + 1 -> In d (seqZ (-1) (k + 3))).
    { intros d Hd. apply list_elem_of_In, elem_of_seqZ. lia. }
    pose proof (proj1 (forallb_forall _ _) Hrule dx (Hmem dx ltac:(lia))) as Hrow.
    simpl in Hrow.
    pose proof (proj1 (forallb_forall _ _) Hrow dy (Hmem dy ltac:(lia))) as Hcell.
    unfold rule_at in Hcell. lia.
  - rewrite !(pattern_at_outside k P) by (try assumption; lia).
    rewrite (pattern_at_outside k P') by (try assumption; lia).
    reflexivity.
Qed.

Lemma evolves_sound (k : Z) (P P' : list Cell) (x y px py : Z) :
  evolves k P P' = true ->
  nextState (pattern_at P x y px py)
    (pattern_at P x y (px - 1) (py - 1) + pattern_at P x y (px - 1) py +
     pattern_at P x y (px - 1) (py + 1) +
     pattern_at P x y px (py - 1) + pattern_at P x y px (py + 1) +
     pattern_at P x y (px + 1) (py - 1) + pattern_at P x y (px + 1) py +
     pattern_at P x y (px + 1) (py + 1)) = pattern_at P' x y px py.
Proof.
  intros Hev.
  rewrite !(pattern_at_rel P x y), (pattern_at_rel P' x y).
  replace (px - 1 - x) with (px - x - 1) by lia.
  replace (px + 1 - x) with (px - x + 1) by lia.
  replace (py - 1 - y) with (py - y - 1) by lia.
  replace (py + 1 - y) with (py - y + 1) by lia.
  apply (evolves_at_origin k); exact Hev.
Qed.

(** A pattern placed with room for its square inside the interior leaves
    the border empty. *)
Lemma pattern_off_border (k w h : Z) (P : list Cell) (x y px py : Z) :
  within k P = true ->
  1 <= x -> x + k <= w - 2 -> 1 <= y -> y + k <= h - 2 ->
  ~ interior w h px py ->
  pattern_at P x y px py = DEAD.
Proof.
  intros Hw Hx0 Hx1 Hy0 Hy1 Hni. rewrite pattern_at_rel.
  apply (pattern_at_outside k); [exact Hw|]. unfold interior in Hni. lia.
Qed.

Lemma evolves_within (k : Z) (P P' : list Cell) :
  evolves k P P' = true -> within k P = true /\ within k P' = true.
Proof. unfold evolves. intros [[HP HP']%andb_prop _]%andb_prop. auto. Qed.

(** One tick of a grid showing [P] at [(x, y)], when the rule turns [P]
    into [P'] and both agree off the interior. *)
Lemma tick_pattern (junk k : Z) (g : Game) (P P' : list Cell) (x y : Z) :
  well_formed g ->
  shows (width g) (height g) (grid g) (pattern_at P x y) ->
  evolves k P P' = true ->
  (forall px py, in_grid (width g) (height g) px py ->
     ~ interior (width g) (height g) px py ->
     pattern_at P x y px py = pattern_at P' x y px py) ->
  exists gr', tick junk g = Ok (with_grid g gr') /\
    shaped (width g) (height g) gr' /\
    shows (width g) (height g) gr' (pattern_at P' x y).
Proof.
  intros Hwf Hshow Hev Hedge.
  apply (tick_pointwise junk g (pattern_at P x y) (pattern_at P' x y));
    [exact Hwf | exact Hshow | | | exact Hedge].
  - intros px py _. apply pattern_at_binary.
  - intros px py _. apply (evolves_sound k). exact Hev.
Qed.

Lemma tick_pattern_roomy (junk k : Z) (g : Game) (P P' : list Cell) (x y : Z) :
  well_formed g ->
  shows (width g) (height g) (grid g) (pattern_at P x y) ->
  evolves k P P' = true ->
  1 <= x -> x + k <= width g - 2 -> 1 <= y -> y + k <= height g - 2 ->
  exists gr', tick junk g = Ok (with_grid g gr') /\
    shaped (width g) (height g) gr' /\
    shows (width g) (height g) gr' (pattern_at P' x y).
Proof.
  intros Hwf Hshow Hev Hx0 Hx1 Hy0 Hy1.
  destruct (evolves_within k P P' Hev) as [HP HP'].
  apply (tick_pattern junk k g P P' x y Hwf Hshow Hev).
  intros px py _ Hni.
  rewrite (pattern_off_border k (width g) (height g) P) by assumption.
  rewrite (pattern_off_border k (width g) (height g) P') by assumption.
  reflexivity.
Qed.

Lemma pattern_at_shifted (P : list Cell) (dx dy x y px py : Z) :
  pattern_at (map (shift dx dy) P) x y px py = pattern_at P (x + dx) (y + dy) px py.
Proof.
  unfold pattern_at.
  replace (px - (x + dx)) with (px - x - dx) by lia.
  replace (py - (y + dy)) with (py - y - dy) by lia.
  destruct (decide (mkCell (px - x - dx) (py - y - dy) ∈ P)) as [Hm|Hm].
  - rewrite decide_True; [reflexivity | apply elem_of_shift; exact Hm].
  - rewrite decide_False; [reflexivity | rewrite elem_of_shift; exact Hm].
Qed.

Lemma well_formed_with_grid (g : Game) (gr : list (list Z)) :
  well_formed g -> shaped (width g) (height g) gr -> well_formed (with_grid g gr).
Proof. intros (_ & Hw & Hh) Hs. split; [exact Hs | simpl; auto]. Qed.

(** Four ticks of a glider with room: the glider one cell further right
    and down. *)
Lemma glider_four_ticks (junk : Z) (g : Game) (x y : Z) :
  well_formed g ->
  shows (width g) (height g) (grid g) (pattern_at glider x y) ->
  1 <= x <= width g - 5 -> 1 <= y <= height g - 5 ->
  exists gr4, ticks junk 4 g = Ok (with_grid g gr4) /\
    shaped (width g) (height g) gr4 /\
    shows (width g) (height g) gr4 (pattern_at glider (x + 1) (y + 1)).
Proof.
  intros Hwf Hshow Hx Hy.
  destruct (tick_pattern_roomy junk 3 g glider glider_1 x y Hwf Hshow)
    as (gr1 & Ht1 & Hs1 & Hshow1); [vm_compute; reflexivity | lia..|].
  pose proof (well_formed_with_grid g gr1 Hwf Hs1) as Hwf1.
  destruct (tick_pattern_roomy junk 3 (with_grid g gr1) glider_1 glider_2 x y Hwf1 Hshow1)
    as (gr2 & Ht2 & Hs2 & Hshow2); [vm_compute; reflexivity | simpl; lia..|].
  pose proof (well_formed_with_grid g gr2 Hwf Hs2) as Hwf2.
  destruct (tick_pattern_roomy junk 3 (with_grid g gr2) glider_2 glider_3 x y Hwf2 Hshow2)
    as (gr3 & Ht3 & Hs3 & Hshow3); [vm_compute; reflexivity | simpl; lia..|].
  pose proof (well_formed_with_grid g gr3 Hwf Hs3) as Hwf3.
  destruct (tick_pattern_roomy junk 3 (with_grid g gr3) glider_3
              (map (shift 1 1) glider) x y Hwf3 Hshow3)
    as (gr4 & Ht4 & Hs4 & Hshow4); [vm_compute; reflexivity | simpl; lia..|].
  exists gr4. split; [|split; [exact Hs4|]].
  - cbn [ticks]. rewrite Ht1. cbn [bind].
    change (with_grid (with_grid g gr1) gr2) with (with_grid g gr2) in Ht2.
    rewrite Ht2. cbn [bind].
    change (with_grid (with_grid g gr2) gr3) with (with_grid g gr3) in Ht3.
    rewrite Ht3. cbn [bind].
    change (with_grid (with_grid g gr3) gr4) with (with_grid g gr4) in Ht4.
    rewrite Ht4. reflexivity.
  - intros px py Hin. rewrite (Hshow4 px py Hin). f_equal.
    apply pattern_at_shifted.
Qed.

(** ** The run loop *)

Lemma printWindow_window (g : Game) (out : list ascii) :
  shaped (width g) (height g) (grid g) -> 0 <= buffer g ->
  printWindow g out = Ok (out ++ window g).
Proof.
  intros Hs Hb. unfold printWindow, window.
  rewrite (print_rect (width g) (height g)) by (try assumption; lia).
  do 4 f_equal; lia.
Qed.

Lemma tick_playable (junk : Z) (g : Game) :
  playable g ->
  exists gr', tick junk g = Ok (with_grid g gr') /\ playable (with_grid g gr').
Proof.
  intros (Hwf & Hb & Hbuf).
  destruct (tick_spec junk g Hwf Hb) as (gr' & Ht & Hs' & _).
  exists gr'. split; [exact Ht|]. split; [|split].
  - apply well_formed_with_grid; assumption.
  - simpl. apply (tick_binary junk g gr' Hwf Hb Ht).
  - exact Hbuf.
Qed.

Lemma play_loop (junk : Z) (n : nat) (lo : Z) (g : Game) (console : list event) :
  playable g ->
  exists g' frames,
    for_count n lo (fun gen state =>
      let g := fst state in
      let console := snd state in
      let! frame := printWindow g [] in
      let console := console ++ map Write frame in
      let console := console ++ [Sleep (to_useconds (pauseLength g))] in
      let console := console ++ [Flush] in
      let console := console ++ [Clear] in
      let! g := tick junk g in
      Ok (g, console)) (g, console)
    = Ok (g', console ++ concat (map (shown_frame (to_useconds (pauseLength g))) frames)) /\
    ticks junk n g = Ok g' /\
    length frames = n /\
    forall k frame, frames !! k = Some frame ->
      exists gk, ticks junk k g = Ok gk /\ printWindow gk [] = Ok frame.
Proof.
  revert lo g console. induction n as [|n IH]; intros lo g console Hp.
  - exists g, []. simpl. rewrite app_nil_r. repeat split. intros k frame Hk.
    discriminate.
  - destruct Hp as (Hwf & Hb & Hbuf).
    pose proof (printWindow_window g [] (proj1 Hwf) Hbuf) as Hprint.
    destruct (tick_playable junk g (conj Hwf (conj Hb Hbuf))) as (gr' & Ht & Hp').
    destruct (IH (lo + 1) (with_grid g gr')
                (console ++ shown_frame (to_useconds (pauseLength g)) ([] ++ window g)) Hp')
      as (g' & frames & Hrun & Hticks & Hlen & Hframes).
    exists g', (([] ++ window g) :: frames). split; [|split; [|split]].
    + cbn [for_count fst snd]. rewrite Hprint. cbn [bind]. rewrite Ht. cbn [bind].
      replace ((((console ++ map Write ([] ++ window g)) ++
                  [Sleep (to_useconds (pauseLength g))]) ++ [Flush]) ++ [Clear])
        with (console ++ shown_frame (to_useconds (pauseLength g)) ([] ++ window g))
        by (unfold shown_frame; now rewrite <- !app_assoc).
      cbn [fst snd] in Hrun. rewrite Hrun. cbn [map concat].
      change (pauseLength (with_grid g gr')) with (pauseLength g).
      now rewrite <- app_assoc.
    + cbn [ticks]. rewrite Ht. exact Hticks.
    + simpl. now rewrite Hlen.
    + intros [|k] frame Hk.
      * injection Hk as <-. exists g. split; [reflexivity | exact Hprint].
      * destruct (Hframes k frame Hk) as (gk & Hgk & Hpk).
        exists gk. split; [|exact Hpk]. cbn [ticks]. rewrite Ht. exact Hgk.
Qed.

(** ** What a constructed game holds *)

Lemma Game_new_shows (junk vwidth vheight : Z) (pattern : ascii)
    (xo yo gens pause : Z) (g : Game) :
  Game_new junk vwidth vheight pattern xo yo gens pause = Ok g ->
  width g = vwidth + 10 /\ height g = vheight + 10 /\ buffer g = 5 /\
  generations g = gens /\ pauseLength g = pause /\
  well_formed g /\ binary (grid g) /\
  shows (vwidth + 10) (vheight + 10) (grid g)
        (pattern_at (stamped pattern) (5 + xo) (5 + yo)).
Proof.
  intros Hnew.
  destruct (Game_new_inv _ _ _ _ _ _ _ _ _ Hnew) as (Hw & Hh & Hrw & Hrh).
  pose proof (Game_new_Ok_fits _ _ _ _ _ _ _ _ _ Hnew) as Hfit.
  destruct (Game_new_spec junk vwidth vheight pattern xo yo gens pause
              Hw Hh Hrw Hrh Hfit)
    as (g0 & Hg0 & Ew & Eh & Eb & Eg & Ep & _ & Hs & Hl).
  rewrite Hnew in Hg0. injection Hg0 as <-.
  assert (Hshow : shows (vwidth + 10) (vheight + 10) (grid g)
                    (pattern_at (stamped pattern) (5 + xo) (5 + yo))).
  { intros px py Hin. rewrite (Hl px py Hin). reflexivity. }
  repeat (split; [assumption|]). split; [|split; [|exact Hshow]].
  - unfold well_formed. rewrite Ew, Eh. auto.
  - intros px py v Hv.
    rewrite (Hshow px py (load_in_grid _ _ _ _ _ _ Hs Hv)) in Hv.
    injection Hv as <-. apply pattern_at_binary.
Qed.

Lemma pattern_at_nil (x y px py : Z) : pattern_at [] x y px py = DEAD.
Proof. unfold pattern_at. rewrite decide_False; [reflexivity | apply not_elem_of_nil]. Qed.

(** A pattern the rule maps to itself is a fixed point of [tick], wherever
    it lies. *)
Lemma still_life (junk k : Z) (g : Game) (P : list Cell) (x y : Z) :
  well_formed g ->
  shows (width g) (height g) (grid g) (pattern_at P x y) ->
  evolves k P P = true ->
  tick junk g = Ok g.
Proof.
  intros Hwf Hshow Hev.
  destruct (tick_pattern junk k g P P x y Hwf Hshow Hev) as (gr' & -> & Hs' & Hshow').
  { reflexivity. }
  assert (Hgr : gr' = grid g).
  { apply (grid_ext (width g) (height g)); [exact Hs' | apply Hwf |].
    intros px py Hin. rewrite (Hshow' px py Hin). symmetry. apply Hshow; exact Hin. }
  rewrite Hgr. now rewrite with_grid_id.
Qed.

Lemma block_world_shows_block :
  shows 6 6 (grid block_world) (pattern_at block 2 2).
Proof.
  intros px py [Hx Hy].
  assert (Ex : exists n, px = Z.of_nat n /\ (n < 6)%nat)
    by (exists (Z.to_nat px); lia).
  assert (Ey : exists n, py = Z.of_nat n /\ (n < 6)%nat)
    by (exists (Z.to_nat py); lia).
  destruct Ex as (n & -> & Hn), Ey as (m & -> & Hm).
  do 6 (destruct n as [|n]; [do 6 (destruct m as [|m]; [reflexivity|]); lia|]).
  lia.
Qed.

Lemma block_world_well_formed : well_formed block_world.
Proof. split; [apply shapedb_sound; reflexivity | simpl; lia]. Qed.

Lemma block_world_playable : playable block_world.
Proof.
  split; [apply block_world_well_formed|].
  split; [apply binaryb_sound; reflexivity | simpl; lia].
Qed.

Lemma in_window_glider (vwidth vheight xo yo : Z) :
  in_window vwidth vheight xo yo glider ->
  0 <= xo /\ xo + 2 < vwidth /\ 0 <= yo /\ yo + 2 < vheight.
Proof.
  unfold in_window. intros H.
  pose proof (proj1 (List.Forall_forall _ _) H) as Hall.
  pose proof (Hall (mkCell 0 2) ltac:(simpl; tauto)) as [H1 H2].
  pose proof (Hall (mkCell 1 0) ltac:(simpl; tauto)) as [H3 H4].
  pose proof (Hall (mkCell 2 1) ltac:(simpl; tauto)) as [H5 H6].
  simpl in *. lia.
Qed.

Lemma play_leaves_clear (junk : Z) (g g' : Game) (console console' : list event) :
  play junk g console = Ok (g', console') ->
  exists before, console' = before ++ [Clear].
Proof.
  unfold play. cbv zeta. intros Hrun.
  destruct (Z_le_gt_dec 0 (generations g)) as [Hle|Hgt].
  - revert Hrun.
    apply (for_range_partial
             (fun _ (state : Game * list event) =>
                exists before, snd state = before ++ [Clear]));
      [exact Hle | eexists; reflexivity |].
    intros i [t c] [t' c'] _ _ Hbody. cbn [fst snd] in *.
    apply bind_Ok in Hbody as (frame & _ & Hbody).
    apply bind_Ok in Hbody as (t1 & _ & [= _ <-]).
    eexists; reflexivity.
  - rewrite for_range_empty in Hrun by lia. injection Hrun as _ <-.
    eexists; reflexivity.
Qed.

(** ** The model at work on small inputs *)

Example oscillator_window :
  (let! g := Game_new 0 3 3 "o" 0 0 2 1000 in printWindow g []) =
  Ok (lines [text ".X."; text ".X."; text ".X."]).
Proof. reflexivity. Qed.

Example oscillator_window_next :
  (let! g := Game_new 0 3 3 "o" 0 0 2 1000 in
   let! g := tick 0 g in printWindow g []) =
  Ok (lines [text "..."; text "XXX"; text "..."]).
Proof. reflexivity. Qed.

Example glider_window :
  (let! g := Game_new 0 5 4 "g" 0 0 4 1000 in printWindow g []) =
  Ok (lines [text ".X..."; text "..X.."; text "XXX.."; text "....."]).
Proof. reflexivity. Qed.

(** After four ticks the glider has moved one cell right and one down. *)
Example glider_window_four_ticks :
  (let! g := Game_new 0 5 4 "g" 0 0 4 1000 in
   let! g := ticks 0 4 g in printWindow g []) =
  Ok (lines [text "....."; text "..X.."; text "...X."; text ".XXX."]).
Proof. vm_compute. reflexivity. Qed.

Example whole_grid_of_small_world :
  printWholeGrid small_world [] =
  Ok (lines [text "....."; text "..X.."; text "..X.."; text "..X.."; text "....."]).
Proof. reflexivity. Qed.

Example pattern_outside_the_grid :
  Game_new 0 20 20 "u" 0 0 1 1 = Fail OutOfBounds.
Proof. vm_compute. reflexivity. Qed.

Example width_overflows :
  Game_new 0 INT_MAX 20 "o" 0 0 1 1 = Fail IntOverflow.
Proof. reflexivity. Qed.

Example negative_pause_as_usleep_sees_it : to_useconds (-1) = 4294967295.
Proof. reflexivity. Qed.

(** * The claims *)

(** C1. The rule of [determineFate].  Whatever the current state [cur] of
    the cell and the count [n] of its live neighbours, [determineFate]
    stores one value [v], a function of [cur] and [n] alone, and touches no
    other cell: [v] is DEAD when [n < 2] or [n > 3], [cur] itself when
    [n = 2], and ALIVE when [n = 3], whether the cell was alive or dead.
    This covers in particular the eighteen combinations of a state in
    {ALIVE, DEAD} with a count in [0, 8]. *)
Theorem determineFate_rule (g : Game) (w h x y cur n : Z)
    (nextGrid : list (list Z)) :
  load (grid g) x y = Ok cur ->
  totalLiveNeighbors (grid g) x y = Ok n ->
  shaped w h nextGrid -> in_grid w h x y ->
  exists v nextGrid',
    determineFate g (mkCell x y) nextGrid = Ok nextGrid' /\
    load nextGrid' x y = Ok v /\
    (forall x' y', ~ (x' = x /\ y' = y) ->
       load nextGrid' x' y' = load nextGrid x' y') /\
    v = nextState cur n /\
    (n < 2 \/ n > 3 -> v = DEAD) /\
    (n = 2 -> v = cur) /\
    (n = 3 -> v = ALIVE).
Proof.
  intros Hc Hn Hs Hin.
  rewrite (determineFate_store g x y cur n nextGrid Hn Hc).
  destruct (store_spec w h nextGrid x y (nextState cur n) Hs Hin)
    as (ng & Hst & _ & Hl).
  exists (nextState cur n), ng. split; [exact Hst|]. split; [|split].
  - rewrite Hl. now rewrite decide_True.
  - intros x' y' Hne. rewrite Hl. now rewrite decide_False.
  - split; [reflexivity|]. unfold nextState. repeat split.
    + intros Hout.
      destruct (n <? 2) eqn:E1; [reflexivity|].
      destruct (n >? 3) eqn:E2; [reflexivity|]. lia.
    + intros ->. reflexivity.
    + intros ->. reflexivity.
Qed.

Lemma determineFate_rule_witness :
  exists v nextGrid',
    determineFate small_world (mkCell 2 2) (replicate 5 (replicate 5 DEAD))
      = Ok nextGrid' /\
    load nextGrid' 2 2 = Ok v /\
    (forall x' y', ~ (x' = 2 /\ y' = 2) ->
       load nextGrid' x' y' = load (replicate 5 (replicate 5 DEAD)) x' y') /\
    v = nextState 1 2 /\
    (2 < 2 \/ 2 > 3 -> v = DEAD) /\
    (2 = 2 -> v = 1) /\
    (2 = 3 -> v = ALIVE).
Proof.
  apply (determineFate_rule small_world 5 5 2 2 1 2).
  - reflexivity.
  - reflexivity.
  - apply shapedb_sound; reflexivity.
  - unfold in_grid; lia.
Defined.

(** C2. One tick computes the next generation from the current one only.
    On a grid of binary cells [tick] returns, and for every interior cell
    (x, y) the new grid holds the rule's value for the old state [cur] of
    that cell and the sum [n] of the eight cells around it, all nine read
    from the old grid: DEAD when [n < 2] or [n > 3], [cur] when [n = 2],
    ALIVE when [n = 3].  The sum is the one [determineFate] computes. *)
Theorem tick_reads_old_generation (junk : Z) (g : Game) :
  well_formed g -> binary (grid g) ->
  exists g', tick junk g = Ok g' /\
    forall x y, interior (width g) (height g) x y ->
      exists cur nw w sw n s ne e se v,
        load (grid g) x y = Ok cur /\
        load (grid g) (x - 1) (y - 1) = Ok nw /\
        load (grid g) (x - 1) y = Ok w /\
        load (grid g) (x - 1) (y + 1) = Ok sw /\
        load (grid g) x (y - 1) = Ok n /\
        load (grid g) x (y + 1) = Ok s /\
        load (grid g) (x + 1) (y - 1) = Ok ne /\
        load (grid g) (x + 1) y = Ok e /\
        load (grid g) (x + 1) (y + 1) = Ok se /\
        totalLiveNeighbors (grid g) x y = Ok (nw + w + sw + n + s + ne + e + se) /\
        load (grid g') x y = Ok v /\
        v = nextState cur (nw + w + sw + n + s + ne + e + se) /\
        (nw + w + sw + n + s + ne + e + se < 2 \/
         nw + w + sw + n + s + ne + e + se > 3 -> v = DEAD) /\
        (nw + w + sw + n + s + ne + e + se = 2 -> v = cur) /\
        (nw + w + sw + n + s + ne + e + se = 3 -> v = ALIVE).
Proof.
  intros Hwf Hb. destruct (tick_spec junk g Hwf Hb) as (gr' & Ht & _ & Hl).
  exists (with_grid g gr'). split; [exact Ht|].
  intros x y Hi. destruct Hwf as (Hs & _).
  pose proof (totalLiveNeighbors_spec _ _ _ x y Hs Hb Hi) as Hsum.
  assert (Hrd : forall dx dy, -1 <= dx <= 1 -> -1 <= dy <= 1 ->
            load (grid g) (x + dx) (y + dy) = Ok (cell (grid g) (x + dx) (y + dy))).
  { intros dx dy Hdx Hdy. apply (shaped_load_cell (width g) (height g)); [exact Hs|].
    destruct Hi. unfold in_grid. lia. }
  pose proof (Hrd 0 0 ltac:(lia) ltac:(lia)) as Hcur.
  all_around Hrd x y.
  exists (cell (grid g) x y),
    (cell (grid g) (x - 1) (y - 1)), (cell (grid g) (x - 1) y),
    (cell (grid g) (x - 1) (y + 1)), (cell (grid g) x (y - 1)),
    (cell (grid g) x (y + 1)), (cell (grid g) (x + 1) (y - 1)),
    (cell (grid g) (x + 1) y), (cell (grid g) (x + 1) (y + 1)),
    (nextState (cell (grid g) x y) (neighbours (grid g) x y)).
  assert (Hn : neighbours (grid g) x y =
    cell (grid g) (x - 1) (y - 1) + cell (grid g) (x - 1) y +
    cell (grid g) (x - 1) (y + 1) + cell (grid g) x (y - 1) +
    cell (grid g) x (y + 1) + cell (grid g) (x + 1) (y - 1) +
    cell (grid g) (x + 1) y + cell (grid g) (x + 1) (y + 1))
    by (unfold neighbours; now rewrite Hsum).
  repeat (split; [assumption|]).
  split; [simpl; rewrite Hl; now rewrite decide_True|].
  rewrite Hn.
  set (total := cell (grid g) (x - 1) (y - 1) + cell (grid g) (x - 1) y +
    cell (grid g) (x - 1) (y + 1) + cell (grid g) x (y - 1) +
    cell (grid g) x (y + 1) + cell (grid g) (x + 1) (y - 1) +
    cell (grid g) (x + 1) y + cell (grid g) (x + 1) (y + 1)).
  split; [reflexivity|]. unfold nextState. repeat split.
  - intros Hout.
    destruct (total <? 2) eqn:E1; [reflexivity|].
    destruct (total >? 3) eqn:E2; [reflexivity|]. lia.
  - intros ->. reflexivity.
  - intros ->. reflexivity.
Qed.

Lemma tick_reads_old_generation_witness :
  exists g', tick 7 small_world = Ok g' /\
    forall x y, interior 5 5 x y ->
      exists cur nw w sw n s ne e se v,
        load (grid small_world) x y = Ok cur /\
        load (grid small_world) (x - 1) (y - 1) = Ok nw /\
        load (grid small_world) (x - 1) y = Ok w /\
        load (grid small_world) (x - 1) (y + 1) = Ok sw /\
        load (grid small_world) x (y - 1) = Ok n /\
        load (grid small_world) x (y + 1) = Ok s /\
        load (grid small_world) (x + 1) (y - 1) = Ok ne /\
        load (grid small_world) (x + 1) y = Ok e /\
        load (grid small_world) (x + 1) (y + 1) = Ok se /\
        totalLiveNeighbors (grid small_world) x y
          = Ok (nw + w + sw + n + s + ne + e + se) /\
        load (grid g') x y = Ok v /\
        v = nextState cur (nw + w + sw + n + s + ne + e + se) /\
        (nw + w + sw + n + s + ne + e + se < 2 \/
         nw + w + sw + n + s + ne + e + se > 3 -> v = DEAD) /\
        (nw + w + sw + n + s + ne + e + se = 2 -> v = cur) /\
        (nw + w + sw + n + s + ne + e + se = 3 -> v = ALIVE).
Proof.
  apply (tick_reads_old_generation 7 small_world).
  - apply small_world_well_formed.
  - apply small_world_binary.
Defined.




(** C4. Placing a catalog pattern.  After [clearGrid], [setPatternVector]
    with offsets (0, 0) followed by [initializePattern] leaves ALIVE
    exactly the cells (margin + dx, margin + dy), (dx, dy) ranging over the
    catalog entry, and DEAD every other cell of the grid.  With any
    offsets, on any grid, every cell
    (margin + xOffset + dx, margin + yOffset + dy) ends ALIVE and the other
    cells keep their state.  The pattern is assumed to land on cells of
    the grid (the code writes unchecked), and [width] and [height] are
    [int]s. *)
Theorem placement_round_trip :
  (forall (g : Game) (pattern : ascii) (base : list Cell),
     catalog pattern = Some base ->
     shaped (width g) (height g) (grid g) ->
     int_range (width g) -> int_range (height g) ->
     fits (width g) (height g) (buffer g) (buffer g) base ->
     exists g1 g2 g3,
       clearGrid g = Ok g1 /\
       setPatternVector pattern 0 0 g1 = Ok g2 /\
       initializePattern g2 = Ok g3 /\
       (forall c, c ∈ base ->
          load (grid g3) (buffer g + Cell_x c) (buffer g + Cell_y c) = Ok ALIVE) /\
       (forall x y, in_grid (width g) (height g) x y ->
          ~ (exists c, c ∈ base /\ x = buffer g + Cell_x c /\ y = buffer g + Cell_y c) ->
          load (grid g3) x y = Ok DEAD)) /\
  (forall (g : Game) (pattern : ascii) (base : list Cell) (xOffset yOffset : Z),
     catalog pattern = Some base ->
     shaped (width g) (height g) (grid g) ->
     int_range (width g) -> int_range (height g) ->
     fits (width g) (height g) (buffer g + xOffset) (buffer g + yOffset) base ->
     exists g2 g3,
       setPatternVector pattern xOffset yOffset g = Ok g2 /\
       initializePattern g2 = Ok g3 /\
       (forall c, c ∈ base ->
          load (grid g3) (buffer g + xOffset + Cell_x c)
                         (buffer g + yOffset + Cell_y c) = Ok ALIVE) /\
       (forall x y,
          ~ (exists c, c ∈ base /\ x = buffer g + xOffset + Cell_x c /\
                       y = buffer g + yOffset + Cell_y c) ->
          load (grid g3) x y = load (grid g) x y)).
Proof.
  assert (General : forall (g : Game) (pattern : ascii) (base : list Cell) (xo yo : Z),
     catalog pattern = Some base ->
     shaped (width g) (height g) (grid g) ->
     int_range (width g) -> int_range (height g) ->
     fits (width g) (height g) (buffer g + xo) (buffer g + yo) base ->
     exists g2 g3,
       setPatternVector pattern xo yo g = Ok g2 /\
       initializePattern g2 = Ok g3 /\
       (forall c, c ∈ base ->
          load (grid g3) (buffer g + xo + Cell_x c)
                         (buffer g + yo + Cell_y c) = Ok ALIVE) /\
       (forall x y,
          ~ (exists c, c ∈ base /\ x = buffer g + xo + Cell_x c /\
                       y = buffer g + yo + Cell_y c) ->
          load (grid g3) x y = load (grid g) x y)).
  { intros g pattern base xo yo Hcat Hs Hrw Hrh Hfit.
    pose proof (base_cells_catalog pattern g base Hcat) as Hbase.
    destruct (place_spec (width g) (height g) g pattern xo yo)
      as (g2 & gr' & Hset & -> & Hinit & Hs' & Hl'); try assumption.
    - rewrite Hbase. eapply List.Forall_impl; [|exact (catalog_bounds _ _ Hcat)].
      intros c; simpl; unfold INT_MAX; lia.
    - rewrite Hbase; exact Hfit.
    - rewrite Hbase in *. eexists _, _. split; [exact Hset|]. split; [exact Hinit|].
      simpl. split.
      + intros [cx cy] Hc. simpl. rewrite Hl'. rewrite decide_True; [reflexivity|].
        now replace (buffer g + xo + cx - (buffer g + xo)) with cx by lia;
          replace (buffer g + yo + cy - (buffer g + yo)) with cy by lia.
      + intros x y Hno. rewrite Hl'. rewrite decide_False; [reflexivity|].
        intros Hm. apply Hno. eexists; split; [exact Hm|]. simpl. lia. }
  split.
  - intros g pattern base Hcat Hs Hrw Hrh Hfit.
    destruct (clearGrid_spec g Hs) as (gr1 & Hclear & Hs1 & Hl1).
    destruct (General (with_grid g gr1) pattern base 0 0 Hcat Hs1 Hrw Hrh)
      as (g2 & g3 & Hset & Hinit & Halive & Hothers).
    { simpl. now rewrite !Z.add_0_r. }
    simpl in Halive, Hothers. rewrite !Z.add_0_r in Halive, Hothers.
    exists (with_grid g gr1), g2, g3.
    split; [exact Hclear|]. split; [exact Hset|]. split; [exact Hinit|].
    split; [exact Halive|].
    intros x y Hin Hno. rewrite (Hothers x y Hno). apply Hl1; exact Hin.
  - exact General.
Qed.

Lemma placement_round_trip_witness :
  (exists g1 g2 g3,
     clearGrid small_world = Ok g1 /\
     setPatternVector "o" 0 0 g1 = Ok g2 /\
     initializePattern g2 = Ok g3 /\
     (forall c, c ∈ oscillator ->
        load (grid g3) (1 + Cell_x c) (1 + Cell_y c) = Ok ALIVE) /\
     (forall x y, in_grid 5 5 x y ->
        ~ (exists c, c ∈ oscillator /\ x = 1 + Cell_x c /\ y = 1 + Cell_y c) ->
        load (grid g3) x y = Ok DEAD)) /\
  (exists g2 g3,
     setPatternVector "g" 1 (-1) small_world = Ok g2 /\
     initializePattern g2 = Ok g3 /\
     (forall c, c ∈ glider ->
        load (grid g3) (1 + 1 + Cell_x c) (1 + -1 + Cell_y c) = Ok ALIVE) /\
     (forall x y,
        ~ (exists c, c ∈ glider /\ x = 1 + 1 + Cell_x c /\ y = 1 + -1 + Cell_y c) ->
        load (grid g3) x y = load (grid small_world) x y)).
Proof.
  destruct placement_round_trip as [Hzero Hany]. split.
  - apply (Hzero small_world "o"%char oscillator).
    + reflexivity.
    + apply shapedb_sound; reflexivity.
    + unfold int_range, INT_MIN, INT_MAX; simpl; lia.
    + unfold int_range, INT_MIN, INT_MAX; simpl; lia.
    + unfold fits, in_grid, oscillator; simpl.
      repeat (constructor; [simpl; lia|]). constructor.
  - apply (Hany small_world "g"%char glider 1 (-1)).
    + reflexivity.
    + apply shapedb_sound; reflexivity.
    + unfold int_range, INT_MIN, INT_MAX; simpl; lia.
    + unfold int_range, INT_MIN, INT_MAX; simpl; lia.
    + unfold fits, in_grid, glider; simpl.
      repeat (constructor; [simpl; lia|]). constructor.
Defined.

(** C5. On a grid of binary cells the sum of the eight neighbours of an
    interior cell is computed without fault and lies between 0 and 8; on a
    grid whose cells are all DEAD it is 0 at every interior cell. *)
Theorem neighbour_sum_bounds :
  (forall (w h : Z) (gr : list (list Z)) (x y : Z),
     shaped w h gr -> binary gr -> interior w h x y ->
     exists n, totalLiveNeighbors gr x y = Ok n /\ 0 <= n <= 8) /\
  (forall (w h : Z) (gr : list (list Z)) (x y : Z),
     shaped w h gr ->
     (forall x' y', in_grid w h x' y' -> load gr x' y' = Ok DEAD) ->
     interior w h x y ->
     totalLiveNeighbors gr x y = Ok 0).
Proof.
  split.
  - intros w h gr x y Hs Hb Hi. exists (neighbours gr x y).
    apply (neighbours_spec w h); assumption.
  - intros w h gr x y Hs Hd Hi.
    pose proof (all_dead_binary w h gr Hs Hd) as Hb.
    rewrite (totalLiveNeighbors_spec w h gr x y Hs Hb Hi).
    destruct Hi as [Hx Hy].
    assert (Hc : forall dx dy, -1 <= dx <= 1 -> -1 <= dy <= 1 ->
              cell gr (x + dx) (y + dy) = 0).
    { intros dx dy Hdx Hdy. apply load_cell, Hd. unfold in_grid; lia. }
    all_around Hc x y.
    repeat match goal with
           | H : cell gr _ _ = 0 |- _ => rewrite H; clear H
           end.
    reflexivity.
Qed.

Lemma neighbour_sum_bounds_witness :
  (exists n, totalLiveNeighbors (grid small_world) 1 2 = Ok n /\ 0 <= n <= 8) /\
  totalLiveNeighbors (replicate 4 (replicate 3 DEAD)) 2 1 = Ok 0.
Proof.
  destruct neighbour_sum_bounds as [Hsum Hdead]. split.
  - apply (Hsum 5 5 (grid small_world) 1 2).
    + apply shapedb_sound; reflexivity.
    + apply binaryb_sound; reflexivity.
    + unfold interior; lia.
  - apply (Hdead 4 3 (replicate 4 (replicate 3 DEAD)) 2 1).
    + apply shapedb_sound; reflexivity.
    + intros x' y' Hin. apply (load_replicate 4 3 DEAD x' y' Hin).
    + unfold interior; lia.
Defined.

(** C6, as the code has it.  A grid holding only the vertical blinker
    [(x, y)], [(x, y + 1)], [(x, y + 2)], with an interior column on each
    side of it ([2 <= x <= width - 3]) and its three cells interior
    ([1 <= y <= height - 4]): two ticks give back the very same game, and
    one tick gives a different grid. *)
Theorem blinker_period_two (junk : Z) (g : Game) (x y : Z) :
  well_formed g ->
  shows (width g) (height g) (grid g) (vertical_blinker x y) ->
  2 <= x <= width g - 3 -> 1 <= y <= height g - 4 ->
  exists g1 g2,
    tick junk g = Ok g1 /\ tick junk g1 = Ok g2 /\
    g2 = g /\ grid g1 <> grid g.
Proof.
  intros Hwf Hshow Hx Hy.
  destruct (blinker_phases junk g x y Hwf Hshow Hx Hy)
    as (gr1 & gr2 & Ht1 & Hshow1 & Ht2 & Hback).
  exists (with_grid g gr1), (with_grid (with_grid g gr1) gr2).
  split; [exact Ht1|]. split; [exact Ht2|]. split.
  - rewrite Hback. destruct g; reflexivity.
  - simpl. apply (phases_differ (width g) (height g) x y); assumption.
Qed.

Lemma blinker_period_two_witness :
  exists g1 g2,
    tick 7 small_world = Ok g1 /\ tick 7 g1 = Ok g2 /\
    g2 = small_world /\ grid g1 <> grid small_world.
Proof.
  apply (blinker_period_two 7 small_world 2 1).
  - apply small_world_well_formed.
  - apply small_world_shows_blinker.
  - simpl; lia.
  - simpl; lia.
Defined.

(** C6, as stated, fails.  The constructor places the oscillator at
    (1, 1), (1, 2), (1, 3) of a 10 x 10 grid: the grid holds only this
    blinker, and its three cells are interior.  Column 0 is never updated,
    so the first tick leaves two live cells and the second none: after two
    ticks the grid is not the original one. *)
Lemma blinker_beside_border :
  exists g g2,
    Game_new 0 0 0 "o" (-5) (-4) 1 1 = Ok g /\
    well_formed g /\
    shows (width g) (height g) (grid g) (vertical_blinker 1 1) /\
    interior (width g) (height g) 1 1 /\
    interior (width g) (height g) 1 3 /\
    ticks 0 2 g = Ok g2 /\
    grid g2 <> grid g.
Proof.
  eexists _, _. split; [vm_compute; reflexivity|].
  split; [split; [apply shapedb_sound; reflexivity | simpl; lia]|].
  split.
  { intros px py [Hx Hy]. simpl in Hx, Hy.
    assert (Ex : exists n, px = Z.of_nat n /\ (n < 10)%nat)
      by (exists (Z.to_nat px); lia).
    assert (Ey : exists n, py = Z.of_nat n /\ (n < 10)%nat)
      by (exists (Z.to_nat py); lia).
    destruct Ex as (n & -> & Hn), Ey as (m & -> & Hm).
    do 10 (destruct n as [|n]; [do 10 (destruct m as [|m]; [reflexivity|]); lia|]).
    lia. }
  split; [unfold interior; simpl; lia|].
  split; [unfold interior; simpl; lia|].
  split; [vm_compute; reflexivity|].
  discriminate.
Qed.

(** C7, as the code has it.  A key outside the catalog takes the [default]
    branch of the [switch]: nothing fails.  [setPatternVector] leaves a
    game without pattern cells as it is, [initializePattern] then marks
    nothing, and the constructor returns a game whose cells are all
    DEAD. *)
Theorem unknown_key_places_nothing (pattern : ascii) :
  pattern <> "o"%char -> pattern <> "g"%char -> pattern <> "u"%char ->
  (forall (g : Game) (xOffset yOffset : Z),
     patternCells g = [] ->
     setPatternVector pattern xOffset yOffset g = Ok g /\
     initializePattern g = Ok g) /\
  (forall junk vwidth vheight xOffset yOffset generations pauseLength : Z,
     0 <= vwidth + 10 -> 0 <= vheight + 10 ->
     int_range (vwidth + 10) -> int_range (vheight + 10) ->
     exists g,
       Game_new junk vwidth vheight pattern xOffset yOffset generations pauseLength
         = Ok g /\
       patternCells g = [] /\
       forall x y, in_grid (vwidth + 10) (vheight + 10) x y ->
         load (grid g) x y = Ok DEAD).
Proof.
  intros Ho Hg Hu.
  assert (Hcat : catalog pattern = None) by (apply catalog_None; auto).
  split.
  - intros g xo yo Hnil.
    destruct g as [w h b gens pause gr cells]. simpl in Hnil. subst cells.
    unfold setPatternVector, initializePattern. rewrite Hcat.
    split; reflexivity.
  - intros junk vwidth vheight xo yo gens pause Hw Hh Hrw Hrh.
    assert (Hst : stamped pattern = []) by (unfold stamped; now rewrite Hcat).
    destruct (Game_new_spec junk vwidth vheight pattern xo yo gens pause)
      as (g & Hnew & _ & _ & _ & _ & _ & Hp & _ & Hl); try assumption.
    { intros _; exact Hh. }
    { rewrite Hst. apply Forall_nil. }
    exists g. split; [exact Hnew|]. split.
    + rewrite Hp, Hst. reflexivity.
    + intros x y Hin. rewrite (Hl x y Hin). rewrite Hst.
      rewrite decide_False; [reflexivity | apply not_elem_of_nil].
Qed.

Lemma unknown_key_places_nothing_witness :
  (setPatternVector "x" 3 4 small_world = Ok small_world /\
   initializePattern small_world = Ok small_world) /\
  exists g,
    Game_new 7 3 2 "x" 0 0 1 1 = Ok g /\
    patternCells g = [] /\
    forall x y, in_grid (3 + 10) (2 + 10) x y -> load (grid g) x y = Ok DEAD.
Proof.
  destruct (unknown_key_places_nothing "x"%char) as [Hset Hnew];
    [discriminate | discriminate | discriminate |].
  split.
  - apply (Hset small_world 3 4). reflexivity.
  - apply (Hnew 7 3 2 0 0 1 1); unfold int_range, INT_MIN, INT_MAX; lia.
Defined.

(** C7, as stated, fails: the key 'x' is none of 'o', 'g', 'u', and both
    [setPatternVector] and the constructor return normally. *)
Lemma unknown_key_accepted :
  "x"%char <> "o"%char /\ "x"%char <> "g"%char /\ "x"%char <> "u"%char /\
  catalog "x" = None /\
  setPatternVector "x" 0 0 small_world = Ok small_world /\
  exists g, Game_new 0 40 20 "x" 0 0 1 1 = Ok g.
Proof.
  repeat (split; [discriminate|]).
  split; [reflexivity|]. split; [reflexivity|].
  eexists. vm_compute. reflexivity.
Qed.

(** C8, as the code has it.  The constructor validates nothing.  The grid
    measures (vwidth + 10) x (vheight + 10), the margin being 5.  When these
    two sizes are [int]s that [new] accepts and the shifted pattern cells
    are cells of the grid, construction succeeds, whether or not a size
    is below 2 * margin + 1.  When a size is negative where [new] sees
    it, construction ends with [std::bad_array_new_length] and there is no
    game. *)
Theorem construction_unvalidated :
  (forall (junk vwidth vheight : Z) (pattern : ascii)
          (xOffset yOffset generations pauseLength : Z),
     int_range (vwidth + 10) -> int_range (vheight + 10) ->
     0 <= vwidth + 10 -> (0 < vwidth + 10 -> 0 <= vheight + 10) ->
     fits (vwidth + 10) (vheight + 10) (5 + xOffset) (5 + yOffset)
          (stamped pattern) ->
     exists g,
       Game_new junk vwidth vheight pattern xOffset yOffset generations pauseLength
         = Ok g /\
       width g = vwidth + 10 /\ height g = vheight + 10 /\
       buffer g = 5 /\
       shaped (vwidth + 10) (vheight + 10) (grid g)) /\
  (forall (junk vwidth vheight : Z) (pattern : ascii)
          (xOffset yOffset generations pauseLength : Z),
     int_range (vwidth + 10) -> int_range (vheight + 10) ->
     vwidth + 10 < 0 \/ (0 < vwidth + 10 /\ vheight + 10 < 0) ->
     Game_new junk vwidth vheight pattern xOffset yOffset generations pauseLength
       = Fail BadArrayNewLength).
Proof.
  split.
  - intros junk vwidth vheight pattern xOffset yOffset generations pauseLength
           Hrw Hrh Hw Hh Hfit.
    destruct (Game_new_spec junk vwidth vheight pattern xOffset yOffset
                generations pauseLength Hw Hh Hrw Hrh Hfit)
      as (g & Hnew & Ew & Eh & Eb & _ & _ & _ & Hs & _).
    exists g. auto.
  - intros junk vwidth vheight pattern xOffset yOffset generations pauseLength
           Hrw Hrh Hneg.
    unfold Game_new. cbv zeta. change (2 * 5) with 10.
    rewrite (int_add_ok vwidth 10 Hrw), (int_add_ok vheight 10 Hrh). cbn [bind].
    rewrite (new_grid_refused junk _ _ Hneg). reflexivity.
Qed.

Lemma construction_unvalidated_witness :
  (exists g,
     Game_new 7 0 (-3) "o" 0 (-4) 1 1 = Ok g /\
     width g = 0 + 10 /\ height g = -3 + 10 /\ buffer g = 5 /\
     shaped (0 + 10) (-3 + 10) (grid g)) /\
  Game_new 7 (-11) 20 "o" 0 0 1 1 = Fail BadArrayNewLength.
Proof.
  destruct construction_unvalidated as [Hok Hrefused]. split.
  - apply (Hok 7 0 (-3) "o"%char 0 (-4) 1 1);
      try (unfold int_range, INT_MIN, INT_MAX; lia).
    unfold fits, in_grid, stamped; simpl.
    repeat (constructor; [simpl; lia|]). constructor.
  - apply (Hrefused 7 (-11) 20 "o"%char 0 0 1 1);
      unfold int_range, INT_MIN, INT_MAX; lia.
Defined.

(** C8, as stated, fails: a visible size of 0 x 0 gives a 10 x 10 grid,
    narrower and lower than 2 * margin + 1 = 11, and the constructor
    returns a game. *)
Lemma small_grid_accepted :
  exists g, Game_new 0 0 0 "o" 0 0 1 1 = Ok g /\
    width g < 2 * buffer g + 1 /\ height g < 2 * buffer g + 1.
Proof.
  eexists. split; [vm_compute; reflexivity|]. simpl. lia.
Qed.

(** C9. Rendering.  [printWindow] writes [height - 2 * buffer] lines of
    [width - 2 * buffer] characters each, the character in line [i],
    column [j] being that of the cell [(buffer + j, buffer + i)], and
    [printWholeGrid] writes [height] lines of [width] characters each,
    for the cell [(j, i)]; the character is 'X' for an ALIVE cell and '.'
    for a DEAD one, and every line ends with a line feed.  The visible
    size [width - 2 * buffer] by [height - 2 * buffer] is the size the
    constructor was given, whatever the margin. *)
Theorem render_dimensions :
  (forall (g : Game) (out : list ascii),
     shaped (width g) (height g) (grid g) -> 0 <= buffer g ->
     exists rows,
       printWindow g out = Ok (out ++ lines rows) /\
       length rows = Z.to_nat (height g - 2 * buffer g) /\
       forall i r, rows !! i = Some r ->
         length r = Z.to_nat (width g - 2 * buffer g) /\
         forall j, (j < length r)%nat ->
           r !! j = Some (glyph (cell (grid g) (buffer g + Z.of_nat j)
                                               (buffer g + Z.of_nat i)))) /\
  (forall (g : Game) (out : list ascii),
     shaped (width g) (height g) (grid g) ->
     exists rows,
       printWholeGrid g out = Ok (out ++ lines rows) /\
       length rows = Z.to_nat (height g) /\
       forall i r, rows !! i = Some r ->
         length r = Z.to_nat (width g) /\
         forall j, (j < length r)%nat ->
           r !! j = Some (glyph (cell (grid g) (Z.of_nat j) (Z.of_nat i)))) /\
  glyph ALIVE = "X"%char /\ glyph DEAD = "."%char.
Proof.
  split; [|split; [|split; reflexivity]].
  - intros g out Hs Hb.
    exists (picture (grid g) (buffer g) (buffer g)
              (width g - 2 * buffer g) (height g - 2 * buffer g)).
    split; [|split].
    + unfold printWindow.
      rewrite (print_rect (width g) (height g)) by (try assumption; lia).
      do 4 f_equal; lia.
    + apply picture_length.
    + intros i r Hr. destruct (picture_row _ _ _ _ _ _ _ Hr) as [Hlen Hch].
      split; [exact Hlen|]. intros j Hj. apply Hch. lia.
  - intros g out Hs.
    exists (picture (grid g) 0 0 (width g) (height g)).
    split; [|split].
    + unfold printWholeGrid.
      rewrite (print_rect (width g) (height g)) by (try assumption; lia).
      do 4 f_equal; lia.
    + apply picture_length.
    + intros i r Hr. destruct (picture_row _ _ _ _ _ _ _ Hr) as [Hlen Hch].
      split; [exact Hlen|]. intros j Hj. rewrite (Hch j) by lia.
      do 4 f_equal; lia.
Qed.

Lemma render_dimensions_witness :
  (exists rows,
     printWindow small_world [] = Ok ([] ++ lines rows) /\
     length rows = Z.to_nat (5 - 2 * 1) /\
     forall i r, rows !! i = Some r ->
       length r = Z.to_nat (5 - 2 * 1) /\
       forall j, (j < length r)%nat ->
         r !! j = Some (glyph (cell (grid small_world) (1 + Z.of_nat j)
                                                       (1 + Z.of_nat i)))) /\
  (exists rows,
     printWholeGrid small_world [] = Ok ([] ++ lines rows) /\
     length rows = Z.to_nat 5 /\
     forall i r, rows !! i = Some r ->
       length r = Z.to_nat 5 /\
       forall j, (j < length r)%nat ->
         r !! j = Some (glyph (cell (grid small_world) (Z.of_nat j) (Z.of_nat i)))).
Proof.
  destruct render_dimensions as (Hwindow & Hwhole & _). split.
  - apply (Hwindow small_world []).
    + apply shapedb_sound; reflexivity.
    + simpl; lia.
  - apply (Hwhole small_world []).
    apply shapedb_sound; reflexivity.
Defined.

(** C10. Cells stay binary.  [clearGrid] leaves every cell DEAD;
    [initializePattern] (its cells being cells of the grid) and [tick]
    turn a grid of ALIVE/DEAD cells into a grid of ALIVE/DEAD cells; so
    every cell of every reachable state is ALIVE or DEAD. *)
Theorem cells_stay_binary :
  (forall g : Game,
     shaped (width g) (height g) (grid g) ->
     exists g', clearGrid g = Ok g' /\ binary (grid g')) /\
  (forall (w h : Z) (g : Game),
     shaped w h (grid g) -> binary (grid g) ->
     fits w h 0 0 (patternCells g) ->
     exists g', initializePattern g = Ok g' /\ binary (grid g')) /\
  (forall (junk : Z) (g : Game),
     well_formed g -> binary (grid g) ->
     exists g', tick junk g = Ok g' /\ binary (grid g')) /\
  (forall (junk : Z) (g : Game),
     reachable junk g ->
     forall x y, in_grid (width g) (height g) x y ->
       load (grid g) x y = Ok ALIVE \/ load (grid g) x y = Ok DEAD).
Proof.
  split; [|split; [|split]].
  - intros g Hs. destruct (clearGrid_spec g Hs) as (gr' & Hc & Hs' & Hl').
    exists (with_grid g gr'). split; [exact Hc|]. simpl.
    apply (all_dead_binary (width g) (height g)); assumption.
  - intros w h g Hs Hb Hfit.
    destruct (initializePattern_spec w h g Hs Hfit) as (gr' & Hi & Hs' & Hl').
    exists (with_grid g gr'). split; [exact Hi|]. simpl.
    intros x y v Hv. rewrite Hl' in Hv. case_decide.
    + injection Hv as <-. left; reflexivity.
    + exact (Hb x y v Hv).
  - intros junk g Hwf Hb.
    destruct (tick_spec junk g Hwf Hb) as (gr' & Ht & _).
    exists (with_grid g gr'). split; [exact Ht|]. simpl.
    apply (tick_binary junk g gr' Hwf Hb Ht).
  - intros junk g Hreach x y Hin.
    destruct (reachable_invariant junk g Hreach) as ((Hs & _) & Hb & _).
    destruct (shaped_load _ _ _ x y Hs Hin) as [v Hv].
    rewrite Hv. destruct (Hb x y v Hv) as [-> | ->]; auto.
Qed.

Lemma cells_stay_binary_witness :
  (exists g', clearGrid small_world = Ok g' /\ binary (grid g')) /\
  (exists g', initializePattern
                (with_patternCells small_world [mkCell 1 1; mkCell 3 4])
              = Ok g' /\ binary (grid g')) /\
  (exists g', tick 7 small_world = Ok g' /\ binary (grid g')) /\
  (exists g, Game_new 7 3 3 "g" 0 0 4 1000 = Ok g /\
     forall x y, in_grid (width g) (height g) x y ->
       load (grid g) x y = Ok ALIVE \/ load (grid g) x y = Ok DEAD).
Proof.
  destruct cells_stay_binary as (Hclear & Hinit & Htick & Hreach).
  split; [|split; [|split]].
  - apply (Hclear small_world). apply shapedb_sound; reflexivity.
  - apply (Hinit 5 5).
    + apply shapedb_sound; reflexivity.
    + apply binaryb_sound; reflexivity.
    + unfold fits, in_grid; simpl. repeat (constructor; [simpl; lia|]). constructor.
  - apply (Htick 7 small_world).
    + apply small_world_well_formed.
    + apply small_world_binary.
  - eexists. split; [vm_compute; reflexivity|].
    apply (Hreach 7). apply (reach_new 7 3 3 "g" 0 0 4 1000).
    + unfold in_window, stamped; simpl.
      repeat (constructor; [simpl; lia|]). constructor.
    + vm_compute; reflexivity.
Defined.

(** * Further properties of the code *)

(** X1. Neither [tick] nor the constructor ever lets the contents of
    freshly allocated memory reach its result: whatever a new [int]
    array holds, both return the same game, or fail the same way. *)
Theorem fresh_memory_never_matters :
  (forall (j1 j2 : Z) (g : Game), tick j1 g = tick j2 g) /\
  (forall (j1 j2 vwidth vheight : Z) (pattern : ascii)
          (xOffset yOffset generations pauseLength : Z),
     Game_new j1 vwidth vheight pattern xOffset yOffset generations pauseLength =
     Game_new j2 vwidth vheight pattern xOffset yOffset generations pauseLength).
Proof.
  split.
  - exact tick_any_heap.
  - exact Game_new_any_heap.
Qed.

(** X2. Still life.  A grid that holds a block, the four cells
    (x, y), (x, y + 1), (x + 1, y), (x + 1, y + 1) and no other live cell,
    is left exactly as it is by [tick], wherever the block lies. *)
Theorem block_is_still (junk : Z) (g : Game) (x y : Z) :
  well_formed g ->
  shows (width g) (height g) (grid g) (pattern_at block x y) ->
  tick junk g = Ok g.
Proof.
  intros Hwf Hshow. apply (still_life junk 1 g block x y Hwf Hshow).
  vm_compute. reflexivity.
Qed.

Lemma block_is_still_witness : tick 7 block_world = Ok block_world.
Proof.
  apply (block_is_still 7 block_world 2 2).
  - apply block_world_well_formed.
  - apply block_world_shows_block.
Defined.

(** X3. No spontaneous generation: one tick of a grid whose cells are all
    DEAD returns the same game. *)
Theorem dead_grid_stays_dead (junk : Z) (g : Game) :
  well_formed g ->
  (forall x y, in_grid (width g) (height g) x y -> load (grid g) x y = Ok DEAD) ->
  tick junk g = Ok g.
Proof.
  intros Hwf Hdead. apply (still_life junk 0 g [] 0 0 Hwf).
  - intros px py Hin. rewrite pattern_at_nil. apply Hdead; exact Hin.
  - vm_compute. reflexivity.
Qed.

Lemma dead_grid_stays_dead_witness :
  tick 7 (mkGame 4 3 1 2 5 (replicate 4 (replicate 3 DEAD)) []) =
  Ok (mkGame 4 3 1 2 5 (replicate 4 (replicate 3 DEAD)) []).
Proof.
  apply (dead_grid_stays_dead 7).
  - split; [apply shapedb_sound; reflexivity | simpl; lia].
  - intros x y Hin. apply (load_replicate 4 3 DEAD x y Hin).
Defined.

(** X4. The glider travels.  On a grid holding only the catalog's glider
    with its origin at (x, y), and with room for it
    ([1 <= x <= width - 5], [1 <= y <= height - 5]), four ticks return a
    grid of the same size holding only the glider with its origin at
    (x + 1, y + 1). *)
Theorem glider_moves_diagonally (junk : Z) (g : Game) (x y : Z) :
  well_formed g ->
  shows (width g) (height g) (grid g) (pattern_at glider x y) ->
  1 <= x <= width g - 5 -> 1 <= y <= height g - 5 ->
  exists g4, ticks junk 4 g = Ok g4 /\
    width g4 = width g /\ height g4 = height g /\
    shaped (width g) (height g) (grid g4) /\
    shows (width g) (height g) (grid g4) (pattern_at glider (x + 1) (y + 1)).
Proof.
  intros Hwf Hshow Hx Hy.
  destruct (glider_four_ticks junk g x y Hwf Hshow Hx Hy) as (gr4 & Ht & Hs & Hsh).
  exists (with_grid g gr4). split; [exact Ht|]. simpl. auto.
Qed.

Lemma glider_moves_diagonally_witness :
  exists g, Game_new 7 3 3 "g" 0 0 4 1000 = Ok g /\
    exists g4, ticks 7 4 g = Ok g4 /\
      width g4 = width g /\ height g4 = height g /\
      shaped (width g) (height g) (grid g4) /\
      shows (width g) (height g) (grid g4) (pattern_at glider (5 + 1) (5 + 1)).
Proof.
  eexists. split; [vm_compute; reflexivity|].
  apply (glider_moves_diagonally 7).
  - split; [apply shapedb_sound; reflexivity | simpl; lia].
  - apply (Game_new_shows 7 3 3 "g" 0 0 4 1000). vm_compute; reflexivity.
  - simpl; lia.
  - simpl; lia.
Defined.

(** X5. A constructed glider, four ticks later.  When the constructor
    places the glider inside the visible window, four ticks give the grid
    the constructor builds for the offsets (xOffset + 1, yOffset + 1): the
    margin always leaves the glider the room it needs. *)
Theorem constructed_glider_moves (junk vwidth vheight xOffset yOffset : Z)
    (gens pause : Z) (g : Game) :
  in_window vwidth vheight xOffset yOffset glider ->
  Game_new junk vwidth vheight "g" xOffset yOffset gens pause = Ok g ->
  exists g4 g',
    ticks junk 4 g = Ok g4 /\
    Game_new junk vwidth vheight "g" (xOffset + 1) (yOffset + 1) gens pause = Ok g' /\
    grid g4 = grid g'.
Proof.
  intros Hwin Hnew.
  destruct (in_window_glider _ _ _ _ Hwin) as (Hx0 & Hx1 & Hy0 & Hy1).
  destruct (Game_new_inv _ _ _ _ _ _ _ _ _ Hnew) as (Hw & Hh & Hrw & Hrh).
  destruct (Game_new_shows _ _ _ _ _ _ _ _ _ Hnew)
    as (Ew & Eh & _ & _ & _ & Hwf & _ & Hshow).
  change (stamped "g") with glider in Hshow.
  destruct (glider_four_ticks junk g (5 + xOffset) (5 + yOffset) Hwf)
    as (gr4 & Ht & Hs4 & Hshow4);
    [rewrite Ew, Eh; exact Hshow | rewrite Ew; lia | rewrite Eh; lia |].
  rewrite Ew, Eh in Hs4, Hshow4.
  destruct (Game_new_spec junk vwidth vheight "g" (xOffset + 1) (yOffset + 1)
              gens pause Hw Hh Hrw Hrh) as (g' & Hnew' & _).
  { change (stamped "g") with glider. unfold fits, glider, in_grid.
    repeat (constructor; [simpl; lia|]). constructor. }
  destruct (Game_new_shows _ _ _ _ _ _ _ _ _ Hnew')
    as (_ & _ & _ & _ & _ & (Hs' & _) & _ & Hshow').
  change (stamped "g") with glider in Hshow'.
  destruct (Game_new_shows _ _ _ _ _ _ _ _ _ Hnew') as (Ew' & Eh' & _).
  rewrite Ew', Eh' in Hs'.
  exists (with_grid g gr4), g'. split; [exact Ht|]. split; [exact Hnew'|].
  simpl. apply (grid_ext (vwidth + 10) (vheight + 10)); [exact Hs4 | exact Hs' |].
  intros px py Hin. rewrite (Hshow4 px py Hin), (Hshow' px py Hin).
  do 2 f_equal; lia.
Qed.

Lemma constructed_glider_moves_witness :
  exists g, Game_new 7 4 3 "g" 1 0 4 1000 = Ok g /\
    exists g4 g',
      ticks 7 4 g = Ok g4 /\
      Game_new 7 4 3 "g" (1 + 1) (0 + 1) 4 1000 = Ok g' /\
      grid g4 = grid g'.
Proof.
  eexists. split; [vm_compute; reflexivity|].
  apply (constructed_glider_moves 7 4 3 1 0 4 1000).
  - unfold in_window, glider. repeat (constructor; [simpl; lia|]). constructor.
  - vm_compute; reflexivity.
Defined.

(** X6. A grid too small to have an interior never changes: when the
    width or the height is at most 2, [tick] returns the game it was
    given, whatever its cells hold. *)
Theorem tick_of_a_grid_without_interior (junk : Z) (g : Game) :
  well_formed g -> width g <= 2 \/ height g <= 2 -> tick junk g = Ok g.
Proof. apply tick_without_interior. Qed.

Lemma tick_of_a_grid_without_interior_witness :
  tick 7 (mkGame 2 3 0 1 1 [[1; 1; 1]; [1; 0; 1]] []) =
  Ok (mkGame 2 3 0 1 1 [[1; 1; 1]; [1; 0; 1]] []).
Proof.
  apply (tick_of_a_grid_without_interior 7).
  - split; [apply shapedb_sound; reflexivity | simpl; lia].
  - left; simpl; lia.
Defined.

(** X7. [determineFate] is defined on interior cells only.  On grids of
    binary cells, with a scratch grid of the same size, it returns
    normally exactly when the cell is off the outermost border; anywhere
    else one of its eight reads leaves the grid. *)
Theorem determineFate_only_inside (g : Game) (w h x y : Z)
    (nextGrid : list (list Z)) :
  shaped w h (grid g) -> binary (grid g) -> shaped w h nextGrid ->
  (exists nextGrid', determineFate g (mkCell x y) nextGrid = Ok nextGrid') <->
  interior w h x y.
Proof.
  intros Hs Hb Hn. split.
  - intros (ng & Hrun). unfold determineFate in Hrun.
    apply bind_Ok in Hrun as (n & Hsum & _).
    exact (totalLiveNeighbors_Ok_interior w h _ _ _ n Hs Hsum).
  - intros Hi. rewrite (determineFate_spec w h g x y nextGrid Hs Hb Hi).
    destruct (store_spec w h nextGrid x y
                (nextState (cell (grid g) x y) (neighbours (grid g) x y)) Hn
                (interior_in_grid _ _ _ _ Hi)) as (ng & Hst & _).
    exists ng. exact Hst.
Qed.

Lemma determineFate_only_inside_witness :
  (exists nextGrid',
     determineFate small_world (mkCell 0 2) (replicate 5 (replicate 5 DEAD))
       = Ok nextGrid') <->
  interior 5 5 0 2.
Proof.
  apply (determineFate_only_inside small_world 5 5 0 2).
  - apply shapedb_sound; reflexivity.
  - apply binaryb_sound; reflexivity.
  - apply shapedb_sound; reflexivity.
Defined.

(** X8. [initializePattern] returns normally exactly when every pattern
    cell is a cell of the grid; when one is not, the write through it is
    out of bounds. *)
Theorem initializePattern_defined_iff (w h : Z) (g : Game) :
  shaped w h (grid g) ->
  ((exists g', initializePattern g = Ok g') <-> fits w h 0 0 (patternCells g)) /\
  (~ fits w h 0 0 (patternCells g) -> initializePattern g = Fail OutOfBounds).
Proof.
  intros Hs. split; [split|].
  - intros (g' & Hrun).
    destruct (decide (fits w h 0 0 (patternCells g))) as [Hfit|Hnot]; [exact Hfit|].
    rewrite (initializePattern_outside w h g Hs Hnot) in Hrun. discriminate.
  - intros Hfit. destruct (initializePattern_spec w h g Hs Hfit) as (gr' & Hrun & _).
    eexists; exact Hrun.
  - apply initializePattern_outside; exact Hs.
Qed.

Lemma initializePattern_defined_iff_witness :
  ((exists g', initializePattern
                 (with_patternCells small_world [mkCell 1 1; mkCell 5 0]) = Ok g') <->
   fits 5 5 0 0 [mkCell 1 1; mkCell 5 0]) /\
  (~ fits 5 5 0 0 [mkCell 1 1; mkCell 5 0] ->
   initializePattern (with_patternCells small_world [mkCell 1 1; mkCell 5 0])
     = Fail OutOfBounds).
Proof.
  apply (initializePattern_defined_iff 5 5
           (with_patternCells small_world [mkCell 1 1; mkCell 5 0])).
  apply shapedb_sound; reflexivity.
Defined.

(** X9. The constructor returns a game exactly when the two total sizes
    [width + 10] and [height + 10] are [int]s that [new] accepts and every
    catalog cell, shifted by [5 + xOffset] and [5 + yOffset], is a cell of
    the grid.  Nothing else is required of its arguments. *)
Theorem construction_defined_iff (junk vwidth vheight : Z) (pattern : ascii)
    (xOffset yOffset gens pause : Z) :
  (exists g, Game_new junk vwidth vheight pattern xOffset yOffset gens pause = Ok g)
  <->
  int_range (vwidth + 10) /\ int_range (vheight + 10) /\
  0 <= vwidth + 10 /\ (0 < vwidth + 10 -> 0 <= vheight + 10) /\
  fits (vwidth + 10) (vheight + 10) (5 + xOffset) (5 + yOffset) (stamped pattern).
Proof.
  split.
  - intros (g & Hnew).
    destruct (Game_new_inv _ _ _ _ _ _ _ _ _ Hnew) as (Hw & Hh & Hrw & Hrh).
    pose proof (Game_new_Ok_fits _ _ _ _ _ _ _ _ _ Hnew) as Hfit. auto.
  - intros (Hrw & Hrh & Hw & Hh & Hfit).
    destruct (Game_new_spec junk vwidth vheight pattern xOffset yOffset gens pause
                Hw Hh Hrw Hrh Hfit) as (g & Hnew & _).
    exists g. exact Hnew.
Qed.

(** X10. A key outside the catalog makes [setPatternVector] move the cells
    already stored: whenever it returns, the pattern cells are the former
    ones shifted by [buffer + xOffset] and [buffer + yOffset], and nothing
    else of the game has changed; it does return when these sums are
    [int]s. *)
Theorem unknown_key_moves_stored_cells (pattern : ascii) (xOffset yOffset : Z)
    (g : Game) :
  catalog pattern = None ->
  (forall g', setPatternVector pattern xOffset yOffset g = Ok g' ->
     g' = with_patternCells g
            (map (shift (buffer g + xOffset) (buffer g + yOffset))
                 (patternCells g))) /\
  (int_range (buffer g + xOffset) -> int_range (buffer g + yOffset) ->
   Forall (fun c => int_range (Cell_x c + (buffer g + xOffset)) /\
                    int_range (Cell_y c + (buffer g + yOffset))) (patternCells g) ->
   setPatternVector pattern xOffset yOffset g =
     Ok (with_patternCells g
           (map (shift (buffer g + xOffset) (buffer g + yOffset))
                (patternCells g)))).
Proof.
  intros Hcat.
  assert (Hbase : base_cells pattern g = patternCells g)
    by (unfold base_cells; now rewrite Hcat).
  split.
  - intros g' Hrun. apply setPatternVector_Ok_inv in Hrun. now rewrite Hbase in Hrun.
  - intros Hx Hy Hall. rewrite <- Hbase. apply setPatternVector_spec.
    + intros _. auto.
    + rewrite Hbase. exact Hall.
Qed.

Lemma unknown_key_moves_stored_cells_witness :
  (forall g',
     setPatternVector "x" 3 (-1)
       (with_patternCells small_world [mkCell 1 1; mkCell 2 3]) = Ok g' ->
     g' = with_patternCells (with_patternCells small_world [mkCell 1 1; mkCell 2 3])
            (map (shift (1 + 3) (1 + -1)) [mkCell 1 1; mkCell 2 3])) /\
  setPatternVector "x" 3 (-1)
    (with_patternCells small_world [mkCell 1 1; mkCell 2 3]) =
  Ok (with_patternCells (with_patternCells small_world [mkCell 1 1; mkCell 2 3])
        (map (shift (1 + 3) (1 + -1)) [mkCell 1 1; mkCell 2 3])).
Proof.
  destruct (unknown_key_moves_stored_cells "x"%char 3 (-1)
              (with_patternCells small_world [mkCell 1 1; mkCell 2 3]) eq_refl)
    as [Hinv Hrun].
  split; [exact Hinv|]. apply Hrun.
  - unfold int_range, INT_MIN, INT_MAX; simpl; lia.
  - unfold int_range, INT_MIN, INT_MAX; simpl; lia.
  - repeat (constructor; [unfold int_range, INT_MIN, INT_MAX; simpl; lia|]).
    constructor.
Defined.

(** X11. The run loop.  On a game with well-formed arrays, binary cells and
    a margin that is not negative, [play] returns: the game it ends with is
    the result of [generations] ticks, and the terminal has received a
    flush and a clear, then for each generation k below [generations] the
    window of the game after k ticks, a sleep, a flush and a clear.  The
    sleep is given [pauseLength] converted to [useconds_t]: [pauseLength]
    itself when it is not negative, [pauseLength + 2^32] when it is.  The
    game after the last tick is never printed. *)
Theorem play_runs (junk : Z) (g : Game) (console : list event) :
  playable g ->
  (exists g' frames,
     play junk g console =
       Ok (g', console ++ [Flush; Clear] ++
                 concat (map (shown_frame (to_useconds (pauseLength g))) frames)) /\
     ticks junk (Z.to_nat (generations g)) g = Ok g' /\
     length frames = Z.to_nat (generations g) /\
     forall k frame, frames !! k = Some frame ->
       exists gk, ticks junk k g = Ok gk /\ printWindow gk [] = Ok frame) /\
  (0 <= pauseLength g <= INT_MAX -> to_useconds (pauseLength g) = pauseLength g) /\
  (INT_MIN <= pauseLength g < 0 ->
     to_useconds (pauseLength g) = pauseLength g + 4294967296).
Proof.
  intros Hp. split; [|split].
  - destruct (play_loop junk (Z.to_nat (generations g)) 0 g
                ((console ++ [Flush]) ++ [Clear]) Hp)
      as (g' & frames & Hrun & Hticks & Hlen & Hframes).
    exists g', frames. split; [|auto].
    unfold play, for_range. cbv zeta in Hrun |- *. rewrite Z.sub_0_r. rewrite Hrun.
    now rewrite <- !app_assoc.
  - unfold to_useconds, INT_MAX. intros Hpos. apply Z.mod_small. lia.
  - unfold to_useconds, INT_MIN. intros Hneg.
    symmetry. apply (Z.mod_unique_pos _ _ (-1)); lia.
Qed.

Lemma play_runs_witness :
  (exists g' frames,
     play 7 block_world [] =
       Ok (g', [] ++ [Flush; Clear] ++
                 concat (map (shown_frame (to_useconds 1000)) frames)) /\
     ticks 7 (Z.to_nat 3) block_world = Ok g' /\
     length frames = Z.to_nat 3 /\
     forall k frame, frames !! k = Some frame ->
       exists gk, ticks 7 k block_world = Ok gk /\ printWindow gk [] = Ok frame) /\
  (0 <= 1000 <= INT_MAX -> to_useconds 1000 = 1000) /\
  (INT_MIN <= 1000 < 0 -> to_useconds 1000 = 1000 + 4294967296).
Proof.
  apply (play_runs 7 block_world []). apply block_world_playable.
Defined.

(** X12. Whenever [play] returns, the last thing the terminal received is
    a clear: no generation is left on the screen. *)
Theorem play_leaves_screen_cleared (junk : Z) (g g' : Game)
    (console console' : list event) :
  play junk g console = Ok (g', console') ->
  exists before, console' = before ++ [Clear].
Proof. apply play_leaves_clear. Qed.

Lemma play_leaves_screen_cleared_witness :
  exists g' console',
    play 7 block_world [] = Ok (g', console') /\
    exists before, console' = before ++ [Clear].
Proof.
  eexists _, _. split; [vm_compute; reflexivity|].
  eapply (play_leaves_screen_cleared 7 block_world _ []). vm_compute; reflexivity.
Defined.



(** X14. [clearGrid] forgets the grid: its result depends on the sizes
    only, not on what the cells held, and clearing a second time changes
    nothing. *)
Theorem clearGrid_forgets (g : Game) (gr : list (list Z)) :
  shaped (width g) (height g) (grid g) ->
  shaped (width g) (height g) gr ->
  exists g1,
    clearGrid g = Ok g1 /\
    clearGrid (with_grid g gr) = Ok g1 /\
    clearGrid g1 = Ok g1.
Proof.
  intros Hs Hs'.
  exists (with_grid g (replicate (Z.to_nat (width g))
                                 (replicate (Z.to_nat (height g)) DEAD))).
  split; [|split].
  - apply clearGrid_replicate; exact Hs.
  - apply (clearGrid_replicate (with_grid g gr)); exact Hs'.
  - apply (clearGrid_replicate (with_grid g _)). apply shaped_replicate.
Qed.

Lemma clearGrid_forgets_witness :
  exists g1,
    clearGrid small_world = Ok g1 /\
    clearGrid (with_grid small_world (grid (mkGame 5 5 1 1 1
                 (replicate 5 [1; 1; 0; 1; 1]) []))) = Ok g1 /\
    clearGrid g1 = Ok g1.
Proof.
  apply (clearGrid_forgets small_world).
  - apply shapedb_sound; reflexivity.
  - apply shapedb_sound; reflexivity.
Defined.

(** X15. Used as documented, the program never leaves its arrays.  When
    the visible sizes are not negative, the total sizes are [int]s and the
    pattern lies inside the visible window, the constructor returns a
    game and [play] on that game returns too, having ticked it
    [generations] times. *)
Theorem documented_use_is_defined (junk vwidth vheight : Z) (pattern : ascii)
    (xOffset yOffset gens pause : Z) :
  0 <= vwidth -> 0 <= vheight ->
  int_range (vwidth + 10) -> int_range (vheight + 10) ->
  in_window vwidth vheight xOffset yOffset (stamped pattern) ->
  exists g g' console,
    Game_new junk vwidth vheight pattern xOffset yOffset gens pause = Ok g /\
    play junk g [] = Ok (g', console) /\
    ticks junk (Z.to_nat gens) g = Ok g'.
Proof.
  intros Hw Hh Hrw Hrh Hwin.
  destruct (Game_new_spec junk vwidth vheight pattern xOffset yOffset gens pause)
    as (g & Hnew & _); [lia | lia | assumption.. | apply in_window_fits; exact Hwin |].
  destruct (Game_new_shows _ _ _ _ _ _ _ _ _ Hnew)
    as (_ & _ & Hbuf & Hgens & _ & Hwf & Hb & _).
  destruct (play_loop junk (Z.to_nat (generations g)) 0 g
              (([] ++ [Flush]) ++ [Clear]))
    as (g' & frames & Hrun & Hticks & _).
  { split; [exact Hwf|]. split; [exact Hb | lia]. }
  exists g, g'. eexists. split; [exact Hnew|]. split.
  - unfold play, for_range. cbv zeta in Hrun |- *. rewrite Z.sub_0_r. exact Hrun.
  - rewrite <- Hgens. exact Hticks.
Qed.

Lemma documented_use_is_defined_witness :
  exists g g' console,
    Game_new 7 40 20 "u" 2 3 5 1000 = Ok g /\
    play 7 g [] = Ok (g', console) /\
    ticks 7 (Z.to_nat 5) g = Ok g'.
Proof.
  apply (documented_use_is_defined 7 40 20 "u"%char 2 3 5 1000);
    try (unfold int_range, INT_MIN, INT_MAX; lia).
  unfold in_window, stamped; simpl.
  repeat (constructor; [simpl; lia|]). constructor.
Defined.

(** X16. Every oscillator the constructor places inside the visible
    window has period two: two ticks return the very same game, one tick
    a different grid. *)
Theorem constructed_oscillator_returns (junk vwidth vheight : Z)
    (xOffset yOffset gens pause : Z) (g : Game) :
  in_window vwidth vheight xOffset yOffset oscillator ->
  Game_new junk vwidth vheight "o" xOffset yOffset gens pause = Ok g ->
  exists g1 g2,
    tick junk g = Ok g1 /\ tick junk g1 = Ok g2 /\
    g2 = g /\ grid g1 <> grid g.
Proof. apply constructed_oscillator_period_two. Qed.

Lemma constructed_oscillator_returns_witness :
  exists g, Game_new 7 3 3 "o" 1 0 4 1000 = Ok g /\
    exists g1 g2,
      tick 7 g = Ok g1 /\ tick 7 g1 = Ok g2 /\
      g2 = g /\ grid g1 <> grid g.
Proof.
  eexists. split; [vm_compute; reflexivity|].
  apply (constructed_oscillator_returns 7 3 3 1 0 4 1000).
  - unfold in_window, oscillator. repeat (constructor; [simpl; lia|]). constructor.
  - vm_compute; reflexivity.
Defined.
